(** * flam-canvas: the server-side synchronization core

    A shallow embedding of [server/state-manager.js] ([StateManager]),
    [server/rooms.js] ([Room], [RoomManager]) and the socket handlers of
    [server/server.js].

    Memory model.  JavaScript arrays are reference values: the [history]
    array of a [StateManager] is mutated in place ([push], [splice]) while
    [getHistory] hands out a fresh copy.  To keep that aliasing visible the
    arrays of strokes that the code shares or copies live in a store
    ([Heap]) of arrays addressed by locations; [new]/[[]] allocates a fresh
    location.  The per-user dictionaries ([undoStack], [redoStack],
    [userStrokes]) are owned by one [StateManager] and never handed out by
    the server, so they are modelled as finite maps of lists. *)

From Stdlib Require Import ZArith.
From stdpp Require Import base gmap strings list.

Open Scope Z_scope.

(* ------------------------------------------------------------------ *)
(** ** Strokes *)

Inductive Tool := Brush | Eraser.

(** A stroke as the client sends it in [drawing_step]; the server writes
    [stroke.userId = socket.id] before storing it. *)
Record Stroke := mkStroke {
  points : list (Z * Z);
  color : string;
  width : Z;
  tool : Tool;
  userId : string
}.

Definition set_userId (u : string) (s : Stroke) : Stroke :=
  mkStroke (points s) (color s) (width s) (tool s) u.

(* ------------------------------------------------------------------ *)
(** ** The store of arrays *)

Definition loc := nat.

Record Heap := mkHeap {
  arrays : gmap loc (list Stroke);
  next : loc
}.

(** [[...a]] / [[]]: a new array at a fresh location. *)
Definition alloc (h : Heap) (a : list Stroke) : loc * Heap :=
  (next h, mkHeap (<[next h := a]> (arrays h)) (S (next h))).

(** Reading the array stored at [l]. *)
Definition deref (h : Heap) (l : loc) : list Stroke :=
  default [] (arrays h !! l).

(** In-place update of the array at [l] ([push], [splice]). *)
Definition write (h : Heap) (l : loc) (a : list Stroke) : Heap :=
  mkHeap (<[l := a]> (arrays h)) (next h).

(** [Array.prototype.pop]: removes and returns the last element;
    on an empty array it returns [undefined] and changes nothing. *)
Definition arr_pop (a : list Stroke) : option Stroke * list Stroke :=
  match rev a with
  | [] => (None, [])
  | x :: r => (Some x, rev r)
  end.

(* ------------------------------------------------------------------ *)
(** ** StateManager (server/state-manager.js) *)

Record StateManager := mkSM {
  history : loc;                              (* this.history : Stroke[] *)
  undoStack : gmap string (list Stroke);      (* this.undoStack = {} *)
  redoStack : gmap string (list Stroke);      (* this.redoStack = {} *)
  userStrokes : gmap string (list Stroke)     (* this.userStrokes = new Map() *)
}.

(** [constructor()]: [this.history = []] allocates the history array. *)
Definition newStateManager (h : Heap) : StateManager * Heap :=
  let '(l, h1) := alloc h [] in (mkSM l ∅ ∅ ∅, h1).

(** [addStroke(stroke)] *)
Definition addStroke (stroke : Stroke) (sm : StateManager) (h : Heap)
    : StateManager * Heap :=
  (* this.redoStack = {}; *)
  let redo' : gmap string (list Stroke) := ∅ in
  (* this.history.push(stroke); *)
  let h1 := write h (history sm) (deref h (history sm) ++ [stroke]) in
  (* if (!this.userStrokes.has(stroke.userId)) this.userStrokes.set(stroke.userId, []);
     this.userStrokes.get(stroke.userId).push(stroke); *)
  let us := default [] (userStrokes sm !! userId stroke) in
  (mkSM (history sm) (undoStack sm) redo'
        (<[userId stroke := us ++ [stroke]]> (userStrokes sm)), h1).

(** [getHistory()]: [return [...this.history]], a fresh copy. *)
Definition getHistory (sm : StateManager) (h : Heap) : loc * Heap :=
  alloc h (deref h (history sm)).

(** The backward scan of [undoLastStrokeByUser]:
    [for (let i = this.history.length - 1; i >= 0; i--)
       if (this.history[i].userId === userId) { lastStrokeIndex = i; break; }].
    [findLast u hist i] scans the positions [i-1], ..., [0]; the result
    is [lastStrokeIndex], with [-1] when nothing matches. *)
Fixpoint findLast (u : string) (hist : list Stroke) (i : nat) : Z :=
  match i with
  | O => -1
  | S j =>
      match hist !! j with
      | Some s => if String.eqb (userId s) u then Z.of_nat j
                  else findLast u hist j
      | None => findLast u hist j
      end
  end.

(** [undoLastStrokeByUser(userId)]: returns the undone stroke or [null]. *)
Definition undoLastStrokeByUser (u : string) (sm : StateManager) (h : Heap)
    : option Stroke * StateManager * Heap :=
  let hist := deref h (history sm) in
  let lastStrokeIndex := findLast u hist (length hist) in
  if Z.eqb lastStrokeIndex (-1) then (None, sm, h)
  else
    let i := Z.to_nat lastStrokeIndex in
    match hist !! i with
    | None => (None, sm, h)  (* unreachable: the scan only returns indices in range *)
    | Some undoneStroke =>
        (* this.history.splice(lastStrokeIndex, 1) *)
        let h1 := write h (history sm) (take i hist ++ drop (S i) hist) in
        (* if (!this.undoStack[userId]) this.undoStack[userId] = [];
           this.undoStack[userId].push(undoneStroke); *)
        let st := default [] (undoStack sm !! u) in
        let undo' := <[u := st ++ [undoneStroke]]> (undoStack sm) in
        (* const userStrokesList = this.userStrokes.get(userId);
           if (userStrokesList) userStrokesList.pop(); *)
        let us' := match userStrokes sm !! u with
                   | Some l => <[u := snd (arr_pop l)]> (userStrokes sm)
                   | None => userStrokes sm
                   end in
        (Some undoneStroke, mkSM (history sm) undo' (redoStack sm) us', h1)
    end.

(** [redoStrokeByUser(userId)]: returns the redone stroke or [null]. *)
Definition redoStrokeByUser (u : string) (sm : StateManager) (h : Heap)
    : option Stroke * StateManager * Heap :=
  match undoStack sm !! u with
  | None => (None, sm, h)                              (* !this.undoStack[userId] *)
  | Some st =>
      if Nat.eqb (length st) 0 then (None, sm, h)      (* .length === 0 *)
      else
        match arr_pop st with
        | (None, _) => (None, sm, h)  (* unreachable: the stack is non-empty *)
        | (Some redoStroke, st') =>
            (* this.history.push(redoStroke); *)
            let h1 := write h (history sm) (deref h (history sm) ++ [redoStroke]) in
            (* if (!this.userStrokes.has(userId)) this.userStrokes.set(userId, []);
               this.userStrokes.get(userId).push(redoStroke); *)
            let us := default [] (userStrokes sm !! u) in
            (Some redoStroke,
             mkSM (history sm) (<[u := st']> (undoStack sm)) (redoStack sm)
                  (<[u := us ++ [redoStroke]]> (userStrokes sm)), h1)
        end
  end.

(** [clearHistory()]: [this.history = []] (a new array), [this.undoStack = {}],
    [this.redoStack = {}], [this.userStrokes.clear()]. *)
Definition clearHistory (sm : StateManager) (h : Heap) : StateManager * Heap :=
  let '(l, h1) := alloc h [] in (mkSM l ∅ ∅ ∅, h1).

(** [getStrokeCount()] *)
Definition getStrokeCount (sm : StateManager) (h : Heap) : nat :=
  length (deref h (history sm)).

(** [getUserStrokeCount(userId)]: [this.userStrokes.get(userId)?.length || 0] *)
Definition getUserStrokeCount (sm : StateManager) (u : string) : nat :=
  match userStrokes sm !! u with
  | Some l => length l
  | None => 0%nat
  end.

(** [getStrokesByUser(userId)]: [this.userStrokes.get(userId) || []] *)
Definition getStrokesByUser (sm : StateManager) (u : string) : list Stroke :=
  match userStrokes sm !! u with
  | Some l => l
  | None => []
  end.

(** The loop of [canUndo(userId)]. *)
Fixpoint canUndo_scan (u : string) (hist : list Stroke) (i : nat) : bool :=
  match i with
  | O => false
  | S j =>
      match hist !! j with
      | Some s => if String.eqb (userId s) u then true else canUndo_scan u hist j
      | None => canUndo_scan u hist j
      end
  end.

(** [canUndo(userId)] *)
Definition canUndo (sm : StateManager) (h : Heap) (u : string) : bool :=
  let hist := deref h (history sm) in canUndo_scan u hist (length hist).

(** [canRedo(userId)]: [this.undoStack[userId] && this.undoStack[userId].length > 0].
    The [&&] chain yields [undefined] when the stack is absent; the value
    is modelled by its truthiness. *)
Definition canRedo (sm : StateManager) (u : string) : bool :=
  match undoStack sm !! u with
  | Some st => Nat.ltb 0 (length st)
  | None => false
  end.

(** Engine operations, for statements about sequences of calls. *)
Inductive EngineOp :=
| OpAddStroke (s : Stroke)
| OpUndo (u : string)
| OpRedo (u : string)
| OpClear
| OpGetHistory.

Definition engine_step (o : EngineOp) (sm : StateManager) (h : Heap)
    : StateManager * Heap :=
  match o with
  | OpAddStroke s => addStroke s sm h
  | OpUndo u => let '(_, sm', h') := undoLastStrokeByUser u sm h in (sm', h')
  | OpRedo u => let '(_, sm', h') := redoStrokeByUser u sm h in (sm', h')
  | OpClear => clearHistory sm h
  | OpGetHistory => (sm, snd (getHistory sm h))
  end.

Fixpoint run (ops : list EngineOp) (sm : StateManager) (h : Heap)
    : StateManager * Heap :=
  match ops with
  | [] => (sm, h)
  | o :: ops' => let '(sm', h') := engine_step o sm h in run ops' sm' h'
  end.

(** The states a [StateManager] reaches from its constructor. *)
Inductive sm_reachable : StateManager -> Heap -> Prop :=
| smr_new (h : Heap) :
    sm_reachable (fst (newStateManager h)) (snd (newStateManager h))
| smr_step (o : EngineOp) (sm : StateManager) (h : Heap) :
    sm_reachable sm h ->
    sm_reachable (fst (engine_step o sm h)) (snd (engine_step o sm h)).

(* ------------------------------------------------------------------ *)
(** ** Room and RoomManager (server/rooms.js) *)

(** A roster entry [{ id: socket.id, userId, color }], with the [cursor]
    field that [cursor_move] adds. *)
Record User := mkUser {
  u_id : string;
  u_userId : string;
  u_color : string;
  u_cursor : option (Z * Z)
}.

(** [class Room]; [createdAt] (wall-clock time) is not modelled. *)
Record Room := mkRoom {
  roomId : string;
  users : list User;
  stateManager : StateManager
}.

Definition newRoom (rid : string) (h : Heap) : Room * Heap :=
  let '(sm, h1) := newStateManager h in (mkRoom rid [] sm, h1).

Definition set_stateManager (sm : StateManager) (r : Room) : Room :=
  mkRoom (roomId r) (users r) sm.

(** [addUser(user)]: [this.users.push(user)] *)
Definition addUser (user : User) (r : Room) : Room :=
  mkRoom (roomId r) (users r ++ [user]) (stateManager r).

(** [removeUser(userId)]: [this.users = this.users.filter(u => u.id !== userId)] *)
Definition removeUser (uid : string) (r : Room) : Room :=
  mkRoom (roomId r)
         (List.filter (fun u => negb (String.eqb (u_id u) uid)) (users r))
         (stateManager r).

(** [getUserById(userId)]: [this.users.find(u => u.id === userId)] *)
Definition getUserById (uid : string) (r : Room) : option User :=
  List.find (fun u => String.eqb (u_id u) uid) (users r).

(** [getUserCount()]: [this.users.length] *)
Definition getUserCount (r : Room) : nat := length (users r).

(** [user.cursor = {x, y}] on the object [find] returned: the first roster
    entry with that id. *)
Fixpoint set_cursor_first (uid : string) (c : Z * Z) (l : list User) : list User :=
  match l with
  | [] => []
  | u :: l' =>
      if String.eqb (u_id u) uid
      then mkUser (u_id u) (u_userId u) (u_color u) (Some c) :: l'
      else u :: set_cursor_first uid c l'
  end.

(** [RoomManager.createRoom(roomId)]: get-or-create. *)
Definition createRoom (rid : string) (rms : gmap string Room) (h : Heap)
    : Room * gmap string Room * Heap :=
  match rms !! rid with
  | Some r => (r, rms, h)
  | None => let '(r, h1) := newRoom rid h in (r, <[rid := r]> rms, h1)
  end.

(** [RoomManager.getRoom(roomId)] *)
Definition getRoom (rid : string) (rms : gmap string Room) : option Room :=
  rms !! rid.

(** [RoomManager.deleteRoom(roomId)] *)
Definition deleteRoom (rid : string) (rms : gmap string Room) : gmap string Room :=
  match rms !! rid with
  | Some _ => delete rid rms
  | None => rms
  end.

(** The object [RoomManager.getRoomStats] returns; its [createdAt] field
    (wall-clock time, as [Room.createdAt]) is not modelled. *)
Record RoomStats := mkRoomStats {
  stats_roomId : string;
  userCount : nat;
  strokeCount : nat
}.

(** [RoomManager.getRoomStats(roomId)]; [strokeCount] is the length of the
    copy [room.stateManager.getHistory()] returns. *)
Definition getRoomStats (rid : string) (rms : gmap string Room) (h : Heap)
    : option RoomStats * Heap :=
  match getRoom rid rms with
  | None => (None, h)                                    (* if (!room) return null; *)
  | Some room =>
      let '(snap, h1) := getHistory (stateManager room) h in
      (Some (mkRoomStats (roomId room) (length (users room)) (length (deref h1 snap))), h1)
  end.

(* ------------------------------------------------------------------ *)
(** ** The socket handlers (server/server.js) *)

(** Server state: the room registry, the store, and [socket.userData]
    of every connection, keyed by [socket.id]. *)
Record Server := mkServer {
  rooms : gmap string Room;
  heap : Heap;
  userData : gmap string (string * string)
}.

Definition initServer : Server := mkServer ∅ (mkHeap ∅ 0%nat) ∅.

(** Recipients: [socket.emit], [io.to(roomId).emit],
    [socket.broadcast.to(roomId).emit]. *)
Inductive Target :=
| ToSocket (sid : string)
| ToRoom (rid : string)
| ToRoomExceptSender (rid : string) (sid : string).

(** Outgoing messages; array payloads are serialized at the emit. *)
Inductive Message :=
| msg_load_history (hist : list Stroke) (us : list User)
| msg_users_updated (us : list User)
| msg_user_joined (user : option User) (totalUsers : nat)
| msg_draw_event (uid : string) (stroke : Stroke)
| msg_cursor_moved (uid : string) (userColor : string) (userName : string) (x y : Z)
| msg_history_updated (uid : string) (hist : list Stroke) (action : string)
| msg_canvas_cleared (uid : string)
| msg_user_left (uid : string) (totalUsers : nat).

Definition Emit := (Target * Message)%type.

(** Incoming events.  [ev_join_room] carries the value drawn by
    [generateRandomColor()] for the new roster entry. *)
Inductive Event :=
| ev_join_room (rid : string) (uid : string) (userColor : string)
| ev_drawing_step (rid : string) (stroke : Stroke)
| ev_cursor_move (rid : string) (x y : Z)
| ev_undo (rid : string)
| ev_redo (rid : string)
| ev_clear_canvas (rid : string)
| ev_disconnect.

(** [socket.on('join_room', ...)] *)
Definition on_join_room (sid rid uid col : string) (st : Server) : Server * list Emit :=
  (* socket.userData = { roomId, userId } *)
  let ud := <[sid := (rid, uid)]> (userData st) in
  (* let room = roomManager.getRoom(roomId); if (!room) room = roomManager.createRoom(roomId); *)
  let '(room, rms, h1) :=
    match getRoom rid (rooms st) with
    | Some r => (r, rooms st, heap st)
    | None => createRoom rid (rooms st) (heap st)
    end in
  (* room.addUser({ id: socket.id, userId, color: generateRandomColor() }) *)
  let room1 := addUser (mkUser sid uid col None) room in
  let rms1 := <[rid := room1]> rms in
  (* socket.emit('load_history', { history: room.stateManager.getHistory(), users }) *)
  let '(snap, h2) := getHistory (stateManager room1) h1 in
  (mkServer rms1 h2 ud,
   [(ToSocket sid, msg_load_history (deref h2 snap) (users room1));
    (ToRoom rid, msg_users_updated (users room1));
    (ToRoomExceptSender rid sid,
     msg_user_joined (getUserById sid room1) (length (users room1)))]).

(** [socket.on('drawing_step', ...)] *)
Definition on_drawing_step (sid rid : string) (stroke : Stroke) (st : Server)
    : Server * list Emit :=
  match getRoom rid (rooms st) with
  | Some room =>
      let stroke' := set_userId sid stroke in          (* stroke.userId = socket.id *)
      let '(sm', h1) := addStroke stroke' (stateManager room) (heap st) in
      (mkServer (<[rid := set_stateManager sm' room]> (rooms st)) h1 (userData st),
       [(ToRoom rid, msg_draw_event sid stroke')])
  | None => (st, [])
  end.

(** [socket.on('cursor_move', ...)] *)
Definition on_cursor_move (sid rid : string) (x y : Z) (st : Server)
    : Server * list Emit :=
  match getRoom rid (rooms st) with
  | Some room =>
      match getUserById sid room with
      | Some user =>
          let room' := mkRoom (roomId room) (set_cursor_first sid (x, y) (users room))
                              (stateManager room) in
          (mkServer (<[rid := room']> (rooms st)) (heap st) (userData st),
           [(ToRoomExceptSender rid sid,
             msg_cursor_moved sid (u_color user) (u_userId user) x y)])
      | None => (st, [])
      end
  | None => (st, [])
  end.

(** [socket.on('undo', ...)]; the first [getHistory()] is the one of the
    log line. *)
Definition on_undo (sid rid : string) (st : Server) : Server * list Emit :=
  match getRoom rid (rooms st) with
  | Some room =>
      let '(_, h1) := getHistory (stateManager room) (heap st) in
      let '(undoneStroke, sm', h2) := undoLastStrokeByUser sid (stateManager room) h1 in
      let rms := <[rid := set_stateManager sm' room]> (rooms st) in
      match undoneStroke with
      | Some _ =>
          let '(snap, h3) := getHistory sm' h2 in
          (mkServer rms h3 (userData st),
           [(ToRoom rid, msg_history_updated sid (deref h3 snap) "undo")])
      | None => (mkServer rms h2 (userData st), [])
      end
  | None => (st, [])
  end.

(** [socket.on('redo', ...)] *)
Definition on_redo (sid rid : string) (st : Server) : Server * list Emit :=
  match getRoom rid (rooms st) with
  | Some room =>
      let '(_, h1) := getHistory (stateManager room) (heap st) in
      let '(redoStroke, sm', h2) := redoStrokeByUser sid (stateManager room) h1 in
      let rms := <[rid := set_stateManager sm' room]> (rooms st) in
      match redoStroke with
      | Some _ =>
          let '(snap, h3) := getHistory sm' h2 in
          (mkServer rms h3 (userData st),
           [(ToRoom rid, msg_history_updated sid (deref h3 snap) "redo")])
      | None => (mkServer rms h2 (userData st), [])
      end
  | None => (st, [])
  end.

(** [socket.on('clear_canvas', ...)] *)
Definition on_clear_canvas (sid rid : string) (st : Server) : Server * list Emit :=
  match getRoom rid (rooms st) with
  | Some room =>
      let '(sm', h1) := clearHistory (stateManager room) (heap st) in
      (mkServer (<[rid := set_stateManager sm' room]> (rooms st)) h1 (userData st),
       [(ToRoom rid, msg_canvas_cleared sid)])
  | None => (st, [])
  end.

(** [socket.on('disconnect', ...)]; [socket.userData] is left as it is. *)
Definition on_disconnect (sid : string) (st : Server) : Server * list Emit :=
  match userData st !! sid with
  | Some (rid, uid) =>
      match getRoom rid (rooms st) with
      | Some room =>
          let room' := removeUser sid room in
          if Nat.eqb (length (users room')) 0 then
            (mkServer (deleteRoom rid (<[rid := room']> (rooms st))) (heap st) (userData st), [])
          else
            (mkServer (<[rid := room']> (rooms st)) (heap st) (userData st),
             [(ToRoom rid, msg_users_updated (users room'));
              (ToRoom rid, msg_user_left sid (length (users room')))])
      | None => (st, [])
      end
  | None => (st, [])
  end.

(** One event received on the connection [sid]. *)
Definition handle (sid : string) (ev : Event) (st : Server) : Server * list Emit :=
  match ev with
  | ev_join_room rid uid col => on_join_room sid rid uid col st
  | ev_drawing_step rid s => on_drawing_step sid rid s st
  | ev_cursor_move rid x y => on_cursor_move sid rid x y st
  | ev_undo rid => on_undo sid rid st
  | ev_redo rid => on_redo sid rid st
  | ev_clear_canvas rid => on_clear_canvas sid rid st
  | ev_disconnect => on_disconnect sid st
  end.

(** Server states reachable from start-up by any sequence of events. *)
Inductive reachable : Server -> Prop :=
| reach_init : reachable initServer
| reach_step (sid : string) (ev : Event) (st : Server) :
    reachable st -> reachable (fst (handle sid ev st)).

(** The session an event is addressed to: the [roomId] of its payload, or
    for [disconnect] the session recorded in [socket.userData]. *)
Definition event_room (sid : string) (ev : Event) (st : Server) : option string :=
  match ev with
  | ev_join_room rid _ _ | ev_drawing_step rid _ | ev_cursor_move rid _ _
  | ev_undo rid | ev_redo rid | ev_clear_canvas rid => Some rid
  | ev_disconnect => option_map fst (userData st !! sid)
  end.

(** A sequence of events, each on its connection. *)
Fixpoint run_events (evs : list (string * Event)) (st : Server) : Server :=
  match evs with
  | [] => st
  | (sid, e) :: r => run_events r (fst (handle sid e st))
  end.



(* ------------------------------------------------------------------ *)
(** ** Invariants, frames and concrete states used by the proofs *)

(** The scenario of C1 on the socket handlers: A draws and undoes, then B
    draws; A's redo still succeeds. *)
Definition strokeA : Stroke := mkStroke [(10, 10); (20, 20)] "#000000" 5 Brush "".
Definition strokeB : Stroke := mkStroke [(30, 30); (40, 40)] "#ff0000" 5 Brush "".

Definition c1_events : list (string * Event) :=
  [("sA", ev_join_room "r1" "Alice" "#FF6B6B");
   ("sB", ev_join_room "r1" "Bob" "#4ECDC4");
   ("sA", ev_drawing_step "r1" strokeA);
   ("sA", ev_undo "r1");
   ("sB", ev_drawing_step "r1" strokeB)].

(** [frame L h h']: from [h] to [h'] the store only grew and only the
    array at [L] among the existing ones may have changed. *)
Definition frame (L : loc) (h h' : Heap) : Prop :=
  (next h <= next h')%nat /\
  forall l, l ≠ L -> (l < next h)%nat -> arrays h' !! l = arrays h !! l.

(** The strokes of [u] in a history, in history order. *)
Definition strokes_of (u : string) (hist : list Stroke) : list Stroke :=
  List.filter (fun s => String.eqb (userId s) u) hist.

(** The invariant: the history array is allocated, [userStrokes[u]] is the
    subsequence of the history made of [u]'s strokes, and [undoStack[u]]
    holds strokes of [u] only. *)
Definition engine_inv (sm : StateManager) (h : Heap) : Prop :=
  (history sm < next h)%nat /\
  (forall u, getStrokesByUser sm u = strokes_of u (deref h (history sm))) /\
  (forall u st, undoStack sm !! u = Some st -> Forall (fun s => userId s = u) st).

(** Every registered room has an allocated history array of its own, and
    a non-empty roster. *)
Definition server_wf (st : Server) : Prop :=
  (forall rid room, rooms st !! rid = Some room ->
     (history (stateManager room) < next (heap st))%nat) /\
  (forall r1 r2 a b, r1 ≠ r2 -> rooms st !! r1 = Some a -> rooms st !! r2 = Some b ->
     history (stateManager a) ≠ history (stateManager b)) /\
  (forall rid room, rooms st !! rid = Some room -> users room ≠ []).

(** The history array of room [rid]; for a missing room, the next free
    location (no existing array). *)
Definition room_loc (st : Server) (rid : string) : loc :=
  match rooms st !! rid with
  | Some room => history (stateManager room)
  | None => next (heap st)
  end.

(** A step on room [rid]: other rooms are untouched, the store only
    changes at [rid]'s history array or at fresh locations, and the room
    at [rid] afterwards keeps its array or has a fresh one, and has a
    non-empty roster. *)
Definition step_ok (rid : string) (st st' : Server) : Prop :=
  (forall r, r ≠ rid -> rooms st' !! r = rooms st !! r) /\
  frame (room_loc st rid) (heap st) (heap st') /\
  (forall room', rooms st' !! rid = Some room' ->
     (history (stateManager room') < next (heap st'))%nat /\
     (history (stateManager room') = room_loc st rid \/
      (next (heap st) <= history (stateManager room'))%nat) /\
     users room' ≠ []).

(** Every room of a registry is stored under its own [roomId]. *)
Definition keys_ok (rms : gmap string Room) : Prop :=
  forall k r, rms !! k = Some r -> roomId r = k.

(** A concrete engine: A's stroke, then B's stroke, on a fresh store. *)
Definition w_ops : list EngineOp :=
  [OpAddStroke (set_userId "A" strokeA); OpAddStroke (set_userId "B" strokeB)].

Definition w_sm : StateManager :=
  fst (run w_ops (fst (newStateManager (mkHeap ∅ 0%nat))) (snd (newStateManager (mkHeap ∅ 0%nat)))).

Definition w_h : Heap :=
  snd (run w_ops (fst (newStateManager (mkHeap ∅ 0%nat))) (snd (newStateManager (mkHeap ∅ 0%nat)))).

Definition w_sm1 : StateManager := snd (fst (undoLastStrokeByUser "A" w_sm w_h)).

Definition w_h1 : Heap := snd (undoLastStrokeByUser "A" w_sm w_h).

(** A concrete server: two sessions with one participant each. *)
Definition iso_state : Server :=
  run_events
    [("s1", ev_join_room "r1" "Alice" "#FF6B6B");
     ("s2", ev_join_room "r2" "Bob" "#4ECDC4");
     ("s2", ev_drawing_step "r2" strokeB);
     ("s1", ev_drawing_step "r1" strokeA)] initServer.

(** The same server after a third connection joins session [r1]. *)
Definition duo_state : Server :=
  fst (handle "s3" (ev_join_room "r1" "Carol" "#45B7D1") iso_state).

(** The concrete engine after A also undoes its stroke. *)
Definition w_sm2 : StateManager :=
  fst (run (w_ops ++ [OpUndo "A"]) (fst (newStateManager (mkHeap ∅ 0%nat)))
           (snd (newStateManager (mkHeap ∅ 0%nat)))).

Definition w_h2 : Heap :=
  snd (run (w_ops ++ [OpUndo "A"]) (fst (newStateManager (mkHeap ∅ 0%nat)))
           (snd (newStateManager (mkHeap ∅ 0%nat)))).

(* ================================================================== *)
(** * Proofs *)

(** ** The store *)

Lemma deref_write_eq (h : Heap) (l : loc) (a : list Stroke) :
  deref (write h l a) l = a.
Proof. unfold deref, write; simpl. by rewrite lookup_insert_eq. Qed.

Lemma deref_write_ne (h : Heap) (l l' : loc) (a : list Stroke) :
  l' ≠ l -> deref (write h l a) l' = deref h l'.
Proof. intros Hne. unfold deref, write; simpl. by rewrite lookup_insert_ne. Qed.

Lemma arrays_write_ne (h : Heap) (l l' : loc) (a : list Stroke) :
  l' ≠ l -> arrays (write h l a) !! l' = arrays h !! l'.
Proof. intros Hne. unfold write; simpl. by rewrite lookup_insert_ne. Qed.

Lemma deref_alloc_new (h : Heap) (a : list Stroke) :
  deref (snd (alloc h a)) (fst (alloc h a)) = a.
Proof. unfold deref, alloc; simpl. by rewrite lookup_insert_eq. Qed.

Lemma arrays_alloc_old (h : Heap) (a : list Stroke) (l : loc) :
  l ≠ next h -> arrays (snd (alloc h a)) !! l = arrays h !! l.
Proof. intros Hne. unfold alloc; simpl. by rewrite lookup_insert_ne. Qed.

Lemma deref_alloc_old (h : Heap) (a : list Stroke) (l : loc) :
  l ≠ next h -> deref (snd (alloc h a)) l = deref h l.
Proof. intros Hne. unfold deref. by rewrite arrays_alloc_old. Qed.

Lemma arr_pop_snoc (l : list Stroke) (x : Stroke) :
  arr_pop (l ++ [x]) = (Some x, l).
Proof. unfold arr_pop. rewrite rev_app_distr. simpl. by rewrite rev_involutive. Qed.

Lemma arr_pop_nonempty (st : list Stroke) :
  st ≠ [] -> exists x l, st = l ++ [x] /\ arr_pop st = (Some x, l).
Proof.
  intros Hne. destruct (exists_last Hne) as [l [x ->]].
  exists x, l. split; [done | apply arr_pop_snoc].
Qed.

(** ** The backward scan *)

Lemma findLast_absent (u : string) (hist : list Stroke) (n : nat) :
  Forall (fun t => userId t ≠ u) hist -> findLast u hist n = -1.
Proof.
  intros Hall. induction n as [|n IH]; simpl; [done|].
  destruct (hist !! n) as [s|] eqn:Hs; [|done].
  rewrite Forall_lookup in Hall. specialize (Hall n s Hs).
  destruct (String.eqb_spec (userId s) u); [contradiction | done].
Qed.

Lemma findLast_skip (u : string) (pre post : list Stroke) (k : nat) :
  Forall (fun t => userId t ≠ u) post -> (k <= length post)%nat ->
  findLast u (pre ++ post) (length pre + k) = findLast u (pre ++ post) (length pre).
Proof.
  intros Hall. induction k as [|k IH]; intros Hk.
  - by rewrite Nat.add_0_r.
  - rewrite Nat.add_succ_r. simpl.
    destruct (post !! k) as [t|] eqn:Ht.
    2:{ apply lookup_ge_None in Ht. lia. }
    rewrite lookup_app_r by lia.
    replace (length pre + k - length pre)%nat with k by lia. rewrite Ht.
    rewrite Forall_lookup in Hall. specialize (Hall k t Ht).
    destruct (String.eqb_spec (userId t) u); [contradiction|]. apply IH; lia.
Qed.

Lemma findLast_last (u : string) (pre post : list Stroke) (s : Stroke) :
  userId s = u -> Forall (fun t => userId t ≠ u) post ->
  findLast u (pre ++ s :: post) (length (pre ++ s :: post)) = Z.of_nat (length pre).
Proof.
  intros Hs Hall.
  replace (pre ++ s :: post) with ((pre ++ [s]) ++ post) by (by rewrite <- app_assoc).
  rewrite length_app, findLast_skip by (done || lia).
  rewrite length_app. simpl. rewrite Nat.add_1_r. simpl.
  rewrite lookup_app_l by (rewrite length_app; simpl; lia).
  rewrite list_lookup_middle with (x := s) (l2 := []) by done.
  by rewrite Hs, String.eqb_refl.
Qed.

Lemma undo_absent (u : string) (sm : StateManager) (h : Heap) :
  Forall (fun t => userId t ≠ u) (deref h (history sm)) ->
  undoLastStrokeByUser u sm h = (None, sm, h).
Proof. intros Hall. unfold undoLastStrokeByUser. by rewrite findLast_absent. Qed.

Lemma undo_found (u : string) (sm : StateManager) (h : Heap)
    (pre post : list Stroke) (s : Stroke) :
  deref h (history sm) = pre ++ s :: post -> userId s = u ->
  Forall (fun t => userId t ≠ u) post ->
  undoLastStrokeByUser u sm h =
    (Some s,
     mkSM (history sm) (<[u := default [] (undoStack sm !! u) ++ [s]]> (undoStack sm))
          (redoStack sm)
          (match userStrokes sm !! u with
           | Some l => <[u := snd (arr_pop l)]> (userStrokes sm)
           | None => userStrokes sm
           end),
     write h (history sm) (pre ++ post)).
Proof.
  intros Hh Hs Hall. unfold undoLastStrokeByUser. rewrite Hh.
  rewrite findLast_last by done.
  destruct (Z.eqb_spec (Z.of_nat (length pre)) (-1)); [lia|].
  rewrite Nat2Z.id, list_lookup_middle by done.
  rewrite take_app_length.
  replace (S (length pre)) with (length pre + 1)%nat by lia.
  by rewrite drop_app_add.
Qed.

(** Every history either has no stroke of [u], or splits at the last one. *)
Lemma last_decomp (u : string) (l : list Stroke) :
  Forall (fun t => userId t ≠ u) l \/
  exists pre s post, l = pre ++ s :: post /\ userId s = u /\
                     Forall (fun t => userId t ≠ u) post.
Proof.
  induction l as [|x l IH] using rev_ind.
  - left. constructor.
  - destruct (String.eqb_spec (userId x) u) as [Hx|Hx].
    + right. exists l, x, []. split; [done|]. split; [done | constructor].
    + destruct IH as [Hall | (pre & s & post & -> & Hs & Hpost)].
      * left. apply Forall_app. split; [done | by constructor].
      * right. exists pre, s, (post ++ [x]). split; [by rewrite <- app_assoc|].
        split; [done|]. apply Forall_app. split; [done | by constructor].
Qed.

Lemma undo_some_inv (u : string) (sm sm' : StateManager) (h h' : Heap) (s : Stroke) :
  undoLastStrokeByUser u sm h = (Some s, sm', h') ->
  exists pre post,
    deref h (history sm) = pre ++ s :: post /\ userId s = u /\
    Forall (fun t => userId t ≠ u) post /\
    sm' = mkSM (history sm) (<[u := default [] (undoStack sm !! u) ++ [s]]> (undoStack sm))
               (redoStack sm)
               (match userStrokes sm !! u with
                | Some l => <[u := snd (arr_pop l)]> (userStrokes sm)
                | None => userStrokes sm
                end) /\
    h' = write h (history sm) (pre ++ post).
Proof.
  intros Hu. destruct (last_decomp u (deref h (history sm)))
    as [Hall | (pre & s0 & post & Hh & Hs & Hpost)].
  - rewrite undo_absent in Hu by done. discriminate.
  - rewrite (undo_found u sm h pre post s0) in Hu by done.
    injection Hu as <- <- <-. exists pre, post. done.
Qed.

Lemma undo_none_absent (u : string) (sm sm' : StateManager) (h h' : Heap) :
  undoLastStrokeByUser u sm h = (None, sm', h') ->
  Forall (fun t => userId t ≠ u) (deref h (history sm)).
Proof.
  intros Hu. destruct (last_decomp u (deref h (history sm)))
    as [Hall | (pre & s0 & post & Hh & Hs & Hpost)]; [done|].
  rewrite (undo_found u sm h pre post s0) in Hu by done. discriminate.
Qed.

Lemma redo_empty (u : string) (sm : StateManager) (h : Heap) :
  undoStack sm !! u = None \/ undoStack sm !! u = Some [] ->
  redoStrokeByUser u sm h = (None, sm, h).
Proof. unfold redoStrokeByUser. by intros [-> | ->]. Qed.

Lemma redo_top (u : string) (sm : StateManager) (h : Heap) (st : list Stroke) (s : Stroke) :
  undoStack sm !! u = Some (st ++ [s]) ->
  redoStrokeByUser u sm h =
    (Some s,
     mkSM (history sm) (<[u := st]> (undoStack sm)) (redoStack sm)
          (<[u := default [] (userStrokes sm !! u) ++ [s]]> (userStrokes sm)),
     write h (history sm) (deref h (history sm) ++ [s])).
Proof.
  intros Hst. unfold redoStrokeByUser. rewrite Hst, arr_pop_snoc.
  rewrite length_app. simpl. by rewrite Nat.add_1_r.
Qed.

Lemma redo_none_empty (u : string) (sm sm' : StateManager) (h h' : Heap) :
  redoStrokeByUser u sm h = (None, sm', h') ->
  undoStack sm !! u = None \/ undoStack sm !! u = Some [].
Proof.
  intros Hr. destruct (undoStack sm !! u) as [st|] eqn:Hst; [|by left].
  destruct st as [|x st]; [by right|].
  destruct (arr_pop_nonempty (x :: st) ltac:(done)) as (y & l & Heq & _).
  rewrite Heq in Hst. rewrite (redo_top u sm h l y Hst) in Hr. discriminate.
Qed.

Lemma deref_getHistory_self (sm : StateManager) (h : Heap) :
  deref (snd (getHistory sm h)) (history sm) = deref h (history sm).
Proof.
  unfold getHistory. destruct (decide (history sm = next h)) as [He|Hne].
  - unfold deref, alloc; simpl. rewrite He, lookup_insert_eq. simpl.
    by rewrite <- He.
  - by apply deref_alloc_old.
Qed.

Lemma set_stateManager_id (room : Room) :
  set_stateManager (stateManager room) room = room.
Proof. by destruct room. Qed.

(* ------------------------------------------------------------------ *)
(** ** Claims about the history engine *)

(** C2: [undoLastStrokeByUser(u)] removes the last stroke of [u] in the
    history (found by the scan from the tail), keeps the other strokes in
    their order, pushes exactly that stroke on [undoStack[u]] and returns
    it; without a stroke of [u] it returns none and the history is
    unchanged.  On [[A1, B1, A2]], undo by [A] yields [[A1, B1]] and
    returns [A2]. *)
Theorem undoLastStrokeByUser_spec (u : string) (sm : StateManager) (h : Heap) :
  (forall pre s post,
     deref h (history sm) = pre ++ s :: post -> userId s = u ->
     Forall (fun t => userId t ≠ u) post ->
     exists sm' h',
       undoLastStrokeByUser u sm h = (Some s, sm', h') /\
       history sm' = history sm /\
       deref h' (history sm') = pre ++ post /\
       undoStack sm' = <[u := default [] (undoStack sm !! u) ++ [s]]> (undoStack sm)) /\
  (Forall (fun t => userId t ≠ u) (deref h (history sm)) ->
     undoLastStrokeByUser u sm h = (None, sm, h)) /\
  (forall a1 b1 a2, userId a1 = "A" -> userId b1 = "B" -> userId a2 = "A" ->
     deref h (history sm) = [a1; b1; a2] ->
     exists sm' h',
       undoLastStrokeByUser "A" sm h = (Some a2, sm', h') /\
       deref h' (history sm') = [a1; b1]).
Proof.
  split; [|split].
  - intros pre s post Hh Hs Hpost. eexists _, _.
    rewrite (undo_found u sm h pre post s) by done.
    split; [done|]. simpl. split; [done|]. split; [|done].
    apply deref_write_eq.
  - apply undo_absent.
  - intros a1 b1 a2 Ha1 Hb1 Ha2 Hh. eexists _, _.
    rewrite (undo_found "A" sm h [a1; b1] [] a2) by (done || constructor).
    split; [done|]. simpl. apply deref_write_eq.
Qed.

(** C3: [redoStrokeByUser(u)] pops the top of [undoStack[u]]; when there is
    one it appends it at the end of the history and returns it; when the
    stack is empty or absent it returns none and changes nothing. *)
Theorem redoStrokeByUser_spec (u : string) (sm : StateManager) (h : Heap) :
  (forall st s, undoStack sm !! u = Some (st ++ [s]) ->
     exists sm' h',
       redoStrokeByUser u sm h = (Some s, sm', h') /\
       history sm' = history sm /\
       deref h' (history sm') = deref h (history sm) ++ [s] /\
       undoStack sm' = <[u := st]> (undoStack sm)) /\
  (undoStack sm !! u = None \/ undoStack sm !! u = Some [] ->
     redoStrokeByUser u sm h = (None, sm, h)).
Proof.
  split.
  - intros st s Hst. eexists _, _. rewrite (redo_top u sm h st s Hst).
    split; [done|]. simpl. split; [done|]. split; [|done].
    apply deref_write_eq.
  - apply redo_empty.
Qed.

(** C4: the no-op outcomes.  Undo without a stroke of [u] and redo with an
    empty or absent stack return none and leave the engine state and the
    store identical.  An undo, redo, clear, drawing or cursor event for a
    session that does not exist leaves the server state identical and
    emits nothing.  An undo or redo request whose engine call returns none
    emits nothing and leaves the registry, the connections' data and every
    array of the store unchanged; the only trace is the temporary copy that
    the handler's log line makes with [getHistory()], at a fresh location. *)
Theorem noop_outcomes_unchanged :
  (forall (u : string) (sm : StateManager) (h : Heap),
     Forall (fun t => userId t ≠ u) (deref h (history sm)) ->
     undoLastStrokeByUser u sm h = (None, sm, h)) /\
  (forall (u : string) (sm : StateManager) (h : Heap),
     undoStack sm !! u = None \/ undoStack sm !! u = Some [] ->
     redoStrokeByUser u sm h = (None, sm, h)) /\
  (forall (sid rid : string) (st : Server) (ev : Event),
     rooms st !! rid = None ->
     ev = ev_undo rid \/ ev = ev_redo rid \/ ev = ev_clear_canvas rid \/
     (exists s, ev = ev_drawing_step rid s) \/ (exists x y, ev = ev_cursor_move rid x y) ->
     handle sid ev st = (st, [])) /\
  (forall (sid rid : string) (st : Server) (room : Room) (ev : Event),
     rooms st !! rid = Some room ->
     (ev = ev_undo rid /\
      fst (fst (undoLastStrokeByUser sid (stateManager room) (heap st))) = None) \/
     (ev = ev_redo rid /\
      fst (fst (redoStrokeByUser sid (stateManager room) (heap st))) = None) ->
     snd (handle sid ev st) = [] /\
     rooms (fst (handle sid ev st)) = rooms st /\
     userData (fst (handle sid ev st)) = userData st /\
     forall l, (l < next (heap st))%nat ->
       arrays (heap (fst (handle sid ev st))) !! l = arrays (heap st) !! l).
Proof.
  split; [exact undo_absent|]. split; [exact redo_empty|]. split.
  - intros sid rid st ev Hr
      [-> | [-> | [-> | [[s ->] | (x & y & ->)]]]];
      unfold handle, on_undo, on_redo, on_clear_canvas, on_drawing_step,
        on_cursor_move, getRoom;
      by rewrite Hr.
  - intros sid rid st room ev Hr [[-> Hu] | [-> Hu]].
    + destruct (undoLastStrokeByUser sid (stateManager room) (heap st))
        as [[r sm'] h'] eqn:E. simpl in Hu. subst r.
      apply undo_none_absent in E.
      unfold handle, on_undo, getRoom. rewrite Hr. cbn iota beta.
      destruct (getHistory (stateManager room) (heap st)) as [p h1] eqn:Eg.
      assert (Hd : deref h1 (history (stateManager room)) =
                   deref (heap st) (history (stateManager room))).
      { by rewrite <- (deref_getHistory_self (stateManager room) (heap st)), Eg. }
      assert (Ha : forall l, (l < next (heap st))%nat -> arrays h1 !! l = arrays (heap st) !! l).
      { intros l Hl. replace h1 with (snd (getHistory (stateManager room) (heap st)))
          by (by rewrite Eg). apply arrays_alloc_old. lia. }
      rewrite (undo_absent sid (stateManager room) h1) by (by rewrite Hd).
      simpl. rewrite set_stateManager_id, insert_id by done. done.
    + destruct (redoStrokeByUser sid (stateManager room) (heap st))
        as [[r sm'] h'] eqn:E. simpl in Hu. subst r.
      apply redo_none_empty in E.
      unfold handle, on_redo, getRoom. rewrite Hr. cbn iota beta.
      destruct (getHistory (stateManager room) (heap st)) as [p h1] eqn:Eg.
      assert (Ha : forall l, (l < next (heap st))%nat -> arrays h1 !! l = arrays (heap st) !! l).
      { intros l Hl. replace h1 with (snd (getHistory (stateManager room) (heap st)))
          by (by rewrite Eg). apply arrays_alloc_old. lia. }
      rewrite redo_empty by done.
      simpl. rewrite set_stateManager_id, insert_id by done. done.
Qed.

(** C5: [clearHistory()] is total: afterwards the history is empty, every
    undo and redo stack is gone, [getHistory()] returns the empty array,
    and [canUndo(u)] and [canRedo(u)] are false for every [u]. *)
Theorem clearHistory_total (sm : StateManager) (h : Heap) :
  let '(sm', h') := clearHistory sm h in
  deref h' (history sm') = [] /\
  undoStack sm' = ∅ /\ redoStack sm' = ∅ /\ userStrokes sm' = ∅ /\
  deref (snd (getHistory sm' h')) (fst (getHistory sm' h')) = [] /\
  (forall u, canUndo sm' h' u = false /\ canRedo sm' u = false).
Proof.
  unfold clearHistory, alloc. simpl.
  assert (Hd : deref (mkHeap (<[next h := []]> (arrays h)) (S (next h))) (next h) = []).
  { unfold deref; simpl. by rewrite lookup_insert_eq. }
  split; [done|]. split; [done|]. split; [done|]. split; [done|]. split.
  - rewrite Hd. unfold deref; simpl. by rewrite lookup_insert_eq.
  - intros u. unfold canUndo, canRedo. simpl. rewrite Hd, lookup_empty. done.
Qed.

Lemma last_of_split (u : string) (pre post l : list Stroke) (s : Stroke) :
  userId s = u -> Forall (fun t => userId t ≠ u) post ->
  pre ++ s :: post = l ++ [s] -> post = [].
Proof.
  intros Hs Hpost Heq. destruct post as [|p post']; [done|].
  destruct (exists_last (l := p :: post')) as [q [x Hq]]; [done|].
  rewrite Hq in Heq, Hpost.
  replace (pre ++ s :: q ++ [x]) with ((pre ++ s :: q) ++ [x]) in Heq
    by (by rewrite <- app_assoc).
  apply app_inj_tail in Heq as [_ ->].
  apply Forall_app in Hpost as [_ Hx]. inversion Hx. contradiction.
Qed.

(** C9: undo followed at once by redo by the same user returns the same
    stroke, and the history is the old one with that stroke moved to the
    tail; when it was the last stroke of the history, the round trip
    restores the history exactly. *)
Theorem undo_redo_roundtrip (u : string) (sm sm1 : StateManager) (h h1 : Heap) (s : Stroke) :
  undoLastStrokeByUser u sm h = (Some s, sm1, h1) ->
  exists pre post sm2 h2,
    deref h (history sm) = pre ++ s :: post /\
    Forall (fun t => userId t ≠ u) post /\
    redoStrokeByUser u sm1 h1 = (Some s, sm2, h2) /\
    deref h2 (history sm2) = pre ++ post ++ [s] /\
    (forall l, deref h (history sm) = l ++ [s] ->
       deref h2 (history sm2) = deref h (history sm)).
Proof.
  intros Hu. destruct (undo_some_inv u sm sm1 h h1 s Hu)
    as (pre & post & Hh & Hs & Hpost & -> & ->).
  rewrite (redo_top u _ _ (default [] (undoStack sm !! u)) s)
    by (simpl; apply lookup_insert_eq).
  eexists pre, post, _, _. split; [done|]. split; [done|]. split; [done|].
  simpl. rewrite !deref_write_eq, <- app_assoc. split; [done|].
  intros l Hl. rewrite Hh in Hl |- *.
  rewrite (last_of_split u pre post l s Hs Hpost Hl). done.
Qed.

(** C1: appending a stroke does not clear the redo lineage.  [addStroke]
    resets [this.redoStack], but [redoStrokeByUser] takes its stroke from
    [this.undoStack], which [addStroke] leaves alone.  So the property
    "after A undoes a stroke and anyone then adds a stroke, A's redo
    returns none" fails: on the engine, and on the server, where A's redo
    after B's stroke broadcasts a history with A's stroke appended. *)
Theorem redo_survives_new_stroke :
  ~ (forall (sm : StateManager) (h : Heap) (a : string) (sa sb : Stroke)
            (sm1 sm2 : StateManager) (h1 h2 : Heap),
       undoLastStrokeByUser a sm h = (Some sa, sm1, h1) ->
       addStroke sb sm1 h1 = (sm2, h2) ->
       fst (fst (redoStrokeByUser a sm2 h2)) = None) /\
  snd (handle "sA" (ev_redo "r1") (run_events c1_events initServer)) =
    [(ToRoom "r1",
      msg_history_updated "sA" [set_userId "sB" strokeB; set_userId "sA" strokeA] "redo")].
Proof.
  split.
  - intros Hclaim.
    set (sm0 := fst (newStateManager (mkHeap ∅ 0%nat))).
    set (h0 := snd (newStateManager (mkHeap ∅ 0%nat))).
    set (sa := set_userId "A" strokeA). set (sb := set_userId "B" strokeB).
    specialize (Hclaim (fst (addStroke sa sm0 h0)) (snd (addStroke sa sm0 h0)) "A" sa sb).
    specialize (Hclaim
      (snd (fst (undoLastStrokeByUser "A" (fst (addStroke sa sm0 h0)) (snd (addStroke sa sm0 h0)))))).
    specialize (Hclaim
      (fst (addStroke sb
         (snd (fst (undoLastStrokeByUser "A" (fst (addStroke sa sm0 h0)) (snd (addStroke sa sm0 h0)))))
         (snd (undoLastStrokeByUser "A" (fst (addStroke sa sm0 h0)) (snd (addStroke sa sm0 h0))))))).
    specialize (Hclaim
      (snd (undoLastStrokeByUser "A" (fst (addStroke sa sm0 h0)) (snd (addStroke sa sm0 h0))))).
    specialize (Hclaim
      (snd (addStroke sb
         (snd (fst (undoLastStrokeByUser "A" (fst (addStroke sa sm0 h0)) (snd (addStroke sa sm0 h0)))))
         (snd (undoLastStrokeByUser "A" (fst (addStroke sa sm0 h0)) (snd (addStroke sa sm0 h0))))))).
    assert (Hbad : fst (fst (redoStrokeByUser "A"
      (fst (addStroke sb
         (snd (fst (undoLastStrokeByUser "A" (fst (addStroke sa sm0 h0)) (snd (addStroke sa sm0 h0)))))
         (snd (undoLastStrokeByUser "A" (fst (addStroke sa sm0 h0)) (snd (addStroke sa sm0 h0))))))
      (snd (addStroke sb
         (snd (fst (undoLastStrokeByUser "A" (fst (addStroke sa sm0 h0)) (snd (addStroke sa sm0 h0)))))
         (snd (undoLastStrokeByUser "A" (fst (addStroke sa sm0 h0)) (snd (addStroke sa sm0 h0)))))))) = Some sa)
      by (vm_compute; reflexivity).
    rewrite Hclaim in Hbad; [discriminate | vm_compute; reflexivity | vm_compute; reflexivity].
  - vm_compute. reflexivity.
Qed.

(* ------------------------------------------------------------------ *)
(** ** Frame: what an engine call may write *)

Lemma undo_cases (u : string) (sm : StateManager) (h : Heap) :
  undoLastStrokeByUser u sm h = (None, sm, h) \/
  exists pre s post,
    deref h (history sm) = pre ++ s :: post /\ userId s = u /\
    Forall (fun t => userId t ≠ u) post /\
    undoLastStrokeByUser u sm h =
      (Some s,
       mkSM (history sm) (<[u := default [] (undoStack sm !! u) ++ [s]]> (undoStack sm))
            (redoStack sm)
            (match userStrokes sm !! u with
             | Some l => <[u := snd (arr_pop l)]> (userStrokes sm)
             | None => userStrokes sm
             end),
       write h (history sm) (pre ++ post)).
Proof.
  destruct (last_decomp u (deref h (history sm)))
    as [Hall | (pre & s & post & Hh & Hs & Hpost)].
  - left. by apply undo_absent.
  - right. exists pre, s, post. do 3 (split; [done|]). by apply undo_found.
Qed.

Lemma redo_cases (u : string) (sm : StateManager) (h : Heap) :
  redoStrokeByUser u sm h = (None, sm, h) \/
  exists st s,
    undoStack sm !! u = Some (st ++ [s]) /\
    redoStrokeByUser u sm h =
      (Some s,
       mkSM (history sm) (<[u := st]> (undoStack sm)) (redoStack sm)
            (<[u := default [] (userStrokes sm !! u) ++ [s]]> (userStrokes sm)),
       write h (history sm) (deref h (history sm) ++ [s])).
Proof.
  destruct (undoStack sm !! u) as [st|] eqn:Hst.
  - destruct st as [|x st].
    + left. apply redo_empty. by right.
    + destruct (arr_pop_nonempty (x :: st) ltac:(done)) as (y & l & Heq & _).
      right. exists l, y. rewrite Heq in Hst |- *. split; [done|].
      by apply redo_top.
  - left. apply redo_empty. by left.
Qed.

Lemma frame_refl (L : loc) (h : Heap) : frame L h h.
Proof. split; [lia | done]. Qed.

Lemma frame_trans (L : loc) (h1 h2 h3 : Heap) :
  frame L h1 h2 -> frame L h2 h3 -> frame L h1 h3.
Proof.
  intros [H12 F12] [H23 F23]. split; [lia|].
  intros l Hl Hlt. rewrite F23 by (done || lia). by apply F12.
Qed.

Lemma frame_alloc (L : loc) (h : Heap) (a : list Stroke) :
  frame L h (snd (alloc h a)).
Proof.
  split; [simpl; lia|]. intros l _ Hl. apply arrays_alloc_old. lia.
Qed.

Lemma frame_write (L : loc) (h : Heap) (a : list Stroke) :
  frame L h (write h L a).
Proof. split; [simpl; lia|]. intros l Hl _. by apply arrays_write_ne. Qed.

Lemma frame_getHistory (L : loc) (sm : StateManager) (h : Heap) :
  frame L h (snd (getHistory sm h)).
Proof. apply frame_alloc. Qed.

Lemma frame_addStroke (s : Stroke) (sm : StateManager) (h : Heap) :
  history (fst (addStroke s sm h)) = history sm /\
  frame (history sm) h (snd (addStroke s sm h)).
Proof. split; [done | apply frame_write]. Qed.

Lemma frame_undo (u : string) (sm : StateManager) (h : Heap) :
  history (snd (fst (undoLastStrokeByUser u sm h))) = history sm /\
  frame (history sm) h (snd (undoLastStrokeByUser u sm h)).
Proof.
  destruct (undo_cases u sm h) as [E | (pre & s & post & _ & _ & _ & E)]; rewrite E.
  - split; [done | apply frame_refl].
  - split; [done | apply frame_write].
Qed.

Lemma frame_redo (u : string) (sm : StateManager) (h : Heap) :
  history (snd (fst (redoStrokeByUser u sm h))) = history sm /\
  frame (history sm) h (snd (redoStrokeByUser u sm h)).
Proof.
  destruct (redo_cases u sm h) as [E | (st & s & _ & E)]; rewrite E.
  - split; [done | apply frame_refl].
  - split; [done | apply frame_write].
Qed.

Lemma frame_clear (L : loc) (sm : StateManager) (h : Heap) :
  history (fst (clearHistory sm h)) = next h /\
  next (snd (clearHistory sm h)) = S (next h) /\
  frame L h (snd (clearHistory sm h)).
Proof. split; [done|]. split; [done|]. apply frame_alloc. Qed.

Lemma frame_engine_step (o : EngineOp) (sm : StateManager) (h : Heap) :
  frame (history sm) h (snd (engine_step o sm h)) /\
  (history (fst (engine_step o sm h)) = history sm \/
   history (fst (engine_step o sm h)) = next h).
Proof.
  destruct o as [s|u|u| |]; unfold engine_step.
  - destruct (frame_addStroke s sm h) as [H1 H2].
    destruct (addStroke s sm h) as [sm' h'] eqn:E. simpl in *. auto.
  - destruct (frame_undo u sm h) as [H1 H2].
    destruct (undoLastStrokeByUser u sm h) as [[r sm'] h'] eqn:E. simpl in *. auto.
  - destruct (frame_redo u sm h) as [H1 H2].
    destruct (redoStrokeByUser u sm h) as [[r sm'] h'] eqn:E. simpl in *. auto.
  - destruct (frame_clear (history sm) sm h) as (H1 & _ & H2).
    destruct (clearHistory sm h) as [sm' h'] eqn:E. simpl in *. auto.
  - split; [apply frame_getHistory | by left].
Qed.

Lemma next_engine_step (o : EngineOp) (sm : StateManager) (h : Heap) :
  (history sm < next h)%nat ->
  (history (fst (engine_step o sm h)) < next (snd (engine_step o sm h)))%nat.
Proof.
  intros Hlt. destruct o as [s|u|u| |].
  - unfold engine_step. destruct (frame_addStroke s sm h) as [H1 [H2 _]].
    destruct (addStroke s sm h) as [sm' h']. simpl in *. lia.
  - unfold engine_step. destruct (frame_undo u sm h) as [H1 [H2 _]].
    destruct (undoLastStrokeByUser u sm h) as [[r sm'] h']. simpl in *. lia.
  - unfold engine_step. destruct (frame_redo u sm h) as [H1 [H2 _]].
    destruct (redoStrokeByUser u sm h) as [[r sm'] h']. simpl in *. lia.
  - unfold engine_step. destruct (frame_clear (history sm) sm h) as (H1 & H2 & _).
    destruct (clearHistory sm h) as [sm' h']. simpl in *. lia.
  - unfold engine_step. simpl. lia.
Qed.

Lemma sm_reachable_alloc (sm : StateManager) (h : Heap) :
  sm_reachable sm h -> (history sm < next h)%nat.
Proof.
  induction 1 as [h|o sm h _ IH].
  - simpl. lia.
  - by apply next_engine_step.
Qed.

(** The snapshot invariant: location [p] is not the engine's history
    array, it is allocated, and it still holds [snap]. *)
Lemma snapshot_preserved (p : loc) (snap : list Stroke) (ops : list EngineOp) :
  forall sm h,
    history sm ≠ p -> (p < next h)%nat -> deref h p = snap ->
    deref (snd (run ops sm h)) p = snap.
Proof.
  induction ops as [|o ops IH]; intros sm h Hne Hlt Hd; simpl; [done|].
  destruct (frame_engine_step o sm h) as [[Hn Hf] Hhist].
  destruct (engine_step o sm h) as [sm' h'] eqn:E. simpl in *.
  apply IH.
  - destruct Hhist as [-> | ->]; [done | lia].
  - lia.
  - unfold deref. rewrite Hf by done. exact Hd.
Qed.

(** C8: [getHistory()] returns a snapshot: the returned array holds the
    current history, and no later engine call ([addStroke],
    [undoLastStrokeByUser], [redoStrokeByUser], [clearHistory], further
    [getHistory]) changes what it holds. *)
Theorem getHistory_snapshot (sm : StateManager) (h : Heap) :
  sm_reachable sm h ->
  deref (snd (getHistory sm h)) (fst (getHistory sm h)) = deref h (history sm) /\
  forall ops : list EngineOp,
    deref (snd (run ops sm (snd (getHistory sm h)))) (fst (getHistory sm h)) =
    deref h (history sm).
Proof.
  intros Hr. apply sm_reachable_alloc in Hr.
  split; [apply deref_alloc_new|].
  intros ops. apply snapshot_preserved.
  - simpl. lia.
  - simpl. lia.
  - apply deref_alloc_new.
Qed.

(* ------------------------------------------------------------------ *)
(** ** The per-user tracking of [userStrokes] *)

Lemma strokes_of_app (u : string) (l1 l2 : list Stroke) :
  strokes_of u (l1 ++ l2) = strokes_of u l1 ++ strokes_of u l2.
Proof.
  unfold strokes_of. induction l1 as [|x l1 IH]; [done|]. simpl.
  destruct (String.eqb (userId x) u); simpl; by rewrite IH.
Qed.

Lemma strokes_of_one (u : string) (s : Stroke) :
  strokes_of u [s] = if String.eqb (userId s) u then [s] else [].
Proof. unfold strokes_of. simpl. by destruct (String.eqb (userId s) u). Qed.

Lemma strokes_of_none (u : string) (l : list Stroke) :
  Forall (fun t => userId t ≠ u) l -> strokes_of u l = [].
Proof.
  induction 1 as [|x l Hx _ IH]; [done|]. unfold strokes_of in *. simpl.
  destruct (String.eqb_spec (userId x) u); [contradiction | done].
Qed.

Lemma getStrokesByUser_default (sm : StateManager) (u : string) :
  getStrokesByUser sm u = default [] (userStrokes sm !! u).
Proof. unfold getStrokesByUser. by destruct (userStrokes sm !! u). Qed.

Lemma engine_inv_new (h : Heap) :
  engine_inv (fst (newStateManager h)) (snd (newStateManager h)).
Proof.
  split; [simpl; lia|]. split.
  - intros u. unfold getStrokesByUser. simpl. rewrite lookup_empty.
    unfold deref; simpl. by rewrite lookup_insert_eq.
  - intros u st. simpl. by rewrite lookup_empty.
Qed.

(** Appending [s] to the history and to [userStrokes[userId s]]. *)
Lemma tracking_snoc (sm : StateManager) (hist : list Stroke) (s : Stroke) (v : string) :
  (forall u, getStrokesByUser sm u = strokes_of u hist) ->
  userId s = v ->
  forall u,
    default [] (<[v := default [] (userStrokes sm !! v) ++ [s]]> (userStrokes sm) !! u) =
    strokes_of u (hist ++ [s]).
Proof.
  intros Htr Hv u. rewrite strokes_of_app, strokes_of_one.
  destruct (String.eqb_spec (userId s) u) as [Hu|Hu].
  - subst. rewrite lookup_insert_eq. simpl.
    rewrite <- getStrokesByUser_default. by rewrite Htr.
  - rewrite lookup_insert_ne by congruence.
    rewrite <- getStrokesByUser_default, Htr. by rewrite app_nil_r.
Qed.

Lemma engine_inv_step (o : EngineOp) (sm : StateManager) (h : Heap) :
  engine_inv sm h -> engine_inv (fst (engine_step o sm h)) (snd (engine_step o sm h)).
Proof.
  intros Hinv. pose proof (next_engine_step o sm h (proj1 Hinv)) as Hnext.
  destruct Hinv as (Hlt & Htr & Hund).
  split; [exact Hnext|]. clear Hnext.
  destruct o as [s|u|u| |]; unfold engine_step.
  - (* addStroke *)
    split.
    + intros u. rewrite getStrokesByUser_default. simpl.
      rewrite deref_write_eq. by apply tracking_snoc.
    + done.
  - (* undoLastStrokeByUser *)
    destruct (undo_cases u sm h) as [E | (pre & s & post & Hh & Hs & Hpost & E)];
      rewrite E; [by split|].
    simpl. rewrite deref_write_eq.
    assert (Hu : userStrokes sm !! u = Some (strokes_of u pre ++ [s])).
    { assert (Hsp : strokes_of u (s :: post) = [s]).
      { change (s :: post) with ([s] ++ post).
        rewrite strokes_of_app, strokes_of_one, Hs, String.eqb_refl.
        rewrite strokes_of_none by done. done. }
      pose proof (Htr u) as Hu. rewrite Hh, strokes_of_app, Hsp in Hu.
      unfold getStrokesByUser in Hu.
      destruct (userStrokes sm !! u) as [l|].
      - by rewrite Hu.
      - destruct (strokes_of u pre); discriminate. }
    rewrite Hu. split.
    + intros v. rewrite getStrokesByUser_default. simpl.
      destruct (String.eqb_spec u v) as [<-|Hne].
      * rewrite lookup_insert_eq, arr_pop_snoc. simpl.
        rewrite strokes_of_app, (strokes_of_none u post) by done.
        by rewrite app_nil_r.
      * rewrite lookup_insert_ne by done. rewrite <- getStrokesByUser_default, Htr, Hh.
        rewrite !strokes_of_app. f_equal. unfold strokes_of at 1. simpl.
        destruct (String.eqb_spec (userId s) v); [congruence | done].
    + intros v st. simpl. destruct (String.eqb_spec u v) as [<-|Hne].
      * rewrite lookup_insert_eq. intros [= <-]. apply Forall_app. split.
        -- destruct (undoStack sm !! u) as [st0|] eqn:E0; simpl; [by apply Hund|constructor].
        -- by constructor.
      * rewrite lookup_insert_ne by done. apply Hund.
  - (* redoStrokeByUser *)
    destruct (redo_cases u sm h) as [E | (st & s & Hst & E)];
      rewrite E; [by split|].
    pose proof (Hund u _ Hst) as Hall. apply Forall_app in Hall as [Hall Hs].
    inversion Hs as [|? ? Hsu _]; subst.
    simpl. rewrite deref_write_eq. split.
    + intros v. rewrite getStrokesByUser_default. simpl.
      by apply tracking_snoc.
    + intros v st'. simpl. destruct (String.eqb_spec (userId s) v) as [<-|Hne].
      * rewrite lookup_insert_eq. by intros [= <-].
      * rewrite lookup_insert_ne by done. apply Hund.
  - (* clearHistory *)
    simpl. split.
    + intros u. unfold getStrokesByUser. simpl. rewrite lookup_empty.
      unfold deref; simpl. by rewrite lookup_insert_eq.
    + intros u st. by rewrite lookup_empty.
  - (* getHistory *)
    cbn [fst snd]. split; [|done].
    intros u. rewrite Htr. unfold getHistory. by rewrite deref_alloc_old by lia.
Qed.

Lemma engine_inv_reachable (sm : StateManager) (h : Heap) :
  sm_reachable sm h -> engine_inv sm h.
Proof.
  induction 1 as [h|o sm h _ IH]; [apply engine_inv_new | by apply engine_inv_step].
Qed.

(** C10: in every state the engine reaches, [userStrokes] tracks the
    history: [getStrokesByUser(u)] is the subsequence of the history made
    of [u]'s strokes, in history order, and [getUserStrokeCount(u)] is
    their number. *)
Theorem userStrokes_tracks_history (sm : StateManager) (h : Heap) :
  sm_reachable sm h ->
  forall u,
    getStrokesByUser sm u = strokes_of u (deref h (history sm)) /\
    getUserStrokeCount sm u = length (strokes_of u (deref h (history sm))).
Proof.
  intros Hr u. destruct (engine_inv_reachable sm h Hr) as (_ & Htr & _).
  split; [apply Htr|].
  rewrite <- Htr. unfold getUserStrokeCount, getStrokesByUser.
  by destruct (userStrokes sm !! u).
Qed.

(* ------------------------------------------------------------------ *)
(** ** Well-formed server states *)

Lemma step_ok_refl (rid : string) (st : Server) : server_wf st -> step_ok rid st st.
Proof.
  intros (Hn & _ & Hu). split; [done|]. split; [apply frame_refl|].
  intros room' Hr. split; [by eapply Hn|].
  split; [left; unfold room_loc; by rewrite Hr | by eapply Hu].
Qed.

Lemma step_ok_insert (rid : string) (st : Server) (room' : Room) (h' : Heap)
    (ud : gmap string (string * string)) :
  frame (room_loc st rid) (heap st) h' ->
  (history (stateManager room') < next h')%nat ->
  (history (stateManager room') = room_loc st rid \/
   (next (heap st) <= history (stateManager room'))%nat) ->
  users room' ≠ [] ->
  step_ok rid st (mkServer (<[rid := room']> (rooms st)) h' ud).
Proof.
  intros Hf Hlt Hloc Hu. split; [|split; [done|]].
  - intros r Hne. simpl. by rewrite lookup_insert_ne.
  - intros r0. simpl. rewrite lookup_insert_eq. intros [= <-]. done.
Qed.

Lemma step_ok_delete (rid : string) (st : Server) (room' : Room)
    (ud : gmap string (string * string)) :
  step_ok rid st (mkServer (deleteRoom rid (<[rid := room']> (rooms st))) (heap st) ud).
Proof.
  unfold deleteRoom. rewrite lookup_insert_eq. split; [|split].
  - intros r Hne. simpl. by rewrite lookup_delete_ne, lookup_insert_ne.
  - apply frame_refl.
  - intros r0. simpl. by rewrite lookup_delete_eq.
Qed.

Lemma getHistory_frame (sm : StateManager) (h : Heap) (p : loc) (h' : Heap) :
  getHistory sm h = (p, h') -> forall L, frame L h h'.
Proof. intros E L. replace h' with (snd (getHistory sm h)) by (by rewrite E). apply frame_alloc. Qed.

Lemma length_set_cursor_first (uid : string) (c : Z * Z) (l : list User) :
  length (set_cursor_first uid c l) = length l.
Proof.
  induction l as [|u l IH]; [done|]. simpl.
  destruct (String.eqb (u_id u) uid); simpl; by rewrite ?IH.
Qed.

Lemma room_loc_some (st : Server) (rid : string) (room : Room) :
  rooms st !! rid = Some room -> room_loc st rid = history (stateManager room).
Proof. unfold room_loc. by intros ->. Qed.

Lemma users_snoc_nonempty (l : list User) (x : User) : l ++ [x] ≠ [].
Proof. destruct l; discriminate. Qed.

Lemma join_step_ok (sid rid uid col : string) (st : Server) :
  server_wf st -> step_ok rid st (fst (on_join_room sid rid uid col st)).
Proof.
  intros (Hn & Hd & Hu). unfold on_join_room, getRoom.
  destruct (rooms st !! rid) as [room|] eqn:Hr.
  - cbn iota beta zeta.
    destruct (getHistory (stateManager (addUser (mkUser sid uid col None) room)) (heap st))
      as [snap h2] eqn:Eg.
    pose proof (getHistory_frame _ _ _ _ Eg) as Fg.
    apply step_ok_insert.
    + apply Fg.
    + simpl. pose proof (Hn rid room Hr). destruct (Fg 0%nat) as [Hle _]. lia.
    + left. simpl. by rewrite (room_loc_some st rid room Hr).
    + apply users_snoc_nonempty.
  - unfold createRoom. rewrite Hr. unfold newRoom, newStateManager, alloc at 1.
    cbn iota beta zeta.
    match goal with |- context [getHistory ?a ?b] =>
      destruct (getHistory a b) as [snap h2] eqn:Eg end.
    pose proof (getHistory_frame _ _ _ _ Eg) as Fg.
    rewrite insert_insert_eq.
    apply step_ok_insert.
    + eapply frame_trans; [apply (frame_alloc _ (heap st) []) | apply Fg].
    + simpl. destruct (Fg 0%nat) as [Hle _]. simpl in Hle. lia.
    + right. simpl. lia.
    + apply users_snoc_nonempty.
Qed.

Lemma drawing_step_ok (sid rid : string) (s : Stroke) (st : Server) :
  server_wf st -> step_ok rid st (fst (on_drawing_step sid rid s st)).
Proof.
  intros Hwf. pose proof Hwf as (Hn & Hd & Hu). unfold on_drawing_step, getRoom.
  destruct (rooms st !! rid) as [room|] eqn:Hr; [|simpl; by apply step_ok_refl].
  cbn beta iota zeta.
  destruct (frame_addStroke (set_userId sid s) (stateManager room) (heap st)) as [H1 H2].
  destruct (addStroke (set_userId sid s) (stateManager room) (heap st)) as [sm' h'] eqn:E.
  simpl in H1, H2. pose proof (Hn rid room Hr) as Hlt.
  apply step_ok_insert.
  - by rewrite (room_loc_some st rid room Hr).
  - simpl. rewrite H1. destruct H2 as [Hle _]. lia.
  - left. simpl. rewrite H1. by rewrite (room_loc_some st rid room Hr).
  - simpl. by apply (Hu rid room).
Qed.

Lemma cursor_step_ok (sid rid : string) (x y : Z) (st : Server) :
  server_wf st -> step_ok rid st (fst (on_cursor_move sid rid x y st)).
Proof.
  intros Hwf. pose proof Hwf as (Hn & Hd & Hu). unfold on_cursor_move, getRoom.
  destruct (rooms st !! rid) as [room|] eqn:Hr; [|simpl; by apply step_ok_refl].
  destruct (getUserById sid room) as [user|]; [|simpl; by apply step_ok_refl].
  apply step_ok_insert.
  - apply frame_refl.
  - simpl. by apply (Hn rid room).
  - left. simpl. by rewrite (room_loc_some st rid room Hr).
  - simpl. intros Hnil. apply (f_equal length) in Hnil.
    rewrite length_set_cursor_first in Hnil. apply (Hu rid room Hr).
    by destruct (users room).
Qed.

Lemma undo_step_ok (sid rid : string) (st : Server) :
  server_wf st -> step_ok rid st (fst (on_undo sid rid st)).
Proof.
  intros Hwf. pose proof Hwf as (Hn & Hd & Hu). unfold on_undo, getRoom.
  destruct (rooms st !! rid) as [room|] eqn:Hr; [|simpl; by apply step_ok_refl].
  pose proof (Hn rid room Hr) as Hlt. rewrite <- (room_loc_some st rid room Hr) in Hlt.
  cbn beta iota zeta.
  destruct (getHistory (stateManager room) (heap st)) as [p1 h1] eqn:E1.
  pose proof (getHistory_frame _ _ _ _ E1) as F1.
  destruct (frame_undo sid (stateManager room) h1) as [U1 U2].
  destruct (undoLastStrokeByUser sid (stateManager room) h1) as [[r sm'] h2] eqn:E2.
  simpl in U1, U2. rewrite <- (room_loc_some st rid room Hr) in U1, U2.
  destruct (F1 0%nat) as [N1 _]. destruct U2 as [N2 G2].
  destruct r as [s|].
  - destruct (getHistory sm' h2) as [p3 h3] eqn:E3.
    pose proof (getHistory_frame _ _ _ _ E3) as F3. destruct (F3 0%nat) as [N3 _].
    apply step_ok_insert.
    + eapply frame_trans; [apply F1|]. eapply frame_trans; [split; [exact N2 | exact G2] | apply F3].
    + simpl. rewrite U1. lia.
    + left. simpl. done.
    + simpl. by apply (Hu rid room).
  - apply step_ok_insert.
    + eapply frame_trans; [apply F1 | split; [exact N2 | exact G2]].
    + simpl. rewrite U1. lia.
    + left. simpl. done.
    + simpl. by apply (Hu rid room).
Qed.

Lemma redo_step_ok (sid rid : string) (st : Server) :
  server_wf st -> step_ok rid st (fst (on_redo sid rid st)).
Proof.
  intros Hwf. pose proof Hwf as (Hn & Hd & Hu). unfold on_redo, getRoom.
  destruct (rooms st !! rid) as [room|] eqn:Hr; [|simpl; by apply step_ok_refl].
  pose proof (Hn rid room Hr) as Hlt. rewrite <- (room_loc_some st rid room Hr) in Hlt.
  cbn beta iota zeta.
  destruct (getHistory (stateManager room) (heap st)) as [p1 h1] eqn:E1.
  pose proof (getHistory_frame _ _ _ _ E1) as F1.
  destruct (frame_redo sid (stateManager room) h1) as [U1 U2].
  destruct (redoStrokeByUser sid (stateManager room) h1) as [[r sm'] h2] eqn:E2.
  simpl in U1, U2. rewrite <- (room_loc_some st rid room Hr) in U1, U2.
  destruct (F1 0%nat) as [N1 _]. destruct U2 as [N2 G2].
  destruct r as [s|].
  - destruct (getHistory sm' h2) as [p3 h3] eqn:E3.
    pose proof (getHistory_frame _ _ _ _ E3) as F3. destruct (F3 0%nat) as [N3 _].
    apply step_ok_insert.
    + eapply frame_trans; [apply F1|]. eapply frame_trans; [split; [exact N2 | exact G2] | apply F3].
    + simpl. rewrite U1. lia.
    + left. simpl. done.
    + simpl. by apply (Hu rid room).
  - apply step_ok_insert.
    + eapply frame_trans; [apply F1 | split; [exact N2 | exact G2]].
    + simpl. rewrite U1. lia.
    + left. simpl. done.
    + simpl. by apply (Hu rid room).
Qed.

Lemma clear_step_ok (sid rid : string) (st : Server) :
  server_wf st -> step_ok rid st (fst (on_clear_canvas sid rid st)).
Proof.
  intros Hwf. pose proof Hwf as (Hn & Hd & Hu). unfold on_clear_canvas, getRoom.
  destruct (rooms st !! rid) as [room|] eqn:Hr; [|simpl; by apply step_ok_refl].
  cbn beta iota zeta.
  destruct (frame_clear (room_loc st rid) (stateManager room) (heap st)) as (C1 & C2 & C3).
  destruct (clearHistory (stateManager room) (heap st)) as [sm' h1] eqn:E.
  simpl in C1, C2, C3.
  apply step_ok_insert.
  - exact C3.
  - simpl. lia.
  - right. simpl. lia.
  - simpl. by apply (Hu rid room).
Qed.

Lemma disconnect_step_ok (sid rid : string) (st : Server) :
  server_wf st -> option_map fst (userData st !! sid) = Some rid ->
  step_ok rid st (fst (on_disconnect sid st)).
Proof.
  intros Hwf Hud. pose proof Hwf as (Hn & Hd & Hu). unfold on_disconnect, getRoom.
  destruct (userData st !! sid) as [[rid' uid]|]; simpl in Hud; [|discriminate].
  injection Hud as ->.
  destruct (rooms st !! rid) as [room|] eqn:Hr; [|simpl; by apply step_ok_refl].
  destruct (Nat.eqb_spec (length (users (removeUser sid room))) 0) as [H0|H0].
  - apply step_ok_delete.
  - apply step_ok_insert.
    + apply frame_refl.
    + simpl. by apply (Hn rid room).
    + left. simpl. by rewrite (room_loc_some st rid room Hr).
    + intros Hnil. apply H0. by rewrite Hnil.
Qed.

Lemma handle_step_ok (sid : string) (ev : Event) (st : Server) (rid : string) :
  server_wf st -> event_room sid ev st = Some rid ->
  step_ok rid st (fst (handle sid ev st)).
Proof.
  intros Hwf Hev.
  destruct ev as [r uid col | r s | r x y | r | r | r | ]; simpl in Hev;
    try (injection Hev as <-); unfold handle.
  - by apply join_step_ok.
  - by apply drawing_step_ok.
  - by apply cursor_step_ok.
  - by apply undo_step_ok.
  - by apply redo_step_ok.
  - by apply clear_step_ok.
  - by apply disconnect_step_ok.
Qed.

Lemma handle_unaddressed (sid : string) (ev : Event) (st : Server) :
  event_room sid ev st = None -> handle sid ev st = (st, []).
Proof.
  destruct ev; simpl; try discriminate.
  unfold on_disconnect. by destruct (userData st !! sid).
Qed.

Lemma step_ok_wf (rid : string) (st st' : Server) :
  server_wf st -> step_ok rid st st' -> server_wf st'.
Proof.
  intros (Hn & Hd & Hu) (Hoth & [Hle Hf] & Hnew).
  split; [|split].
  - intros r room Hr. destruct (decide (r = rid)) as [->|Hne].
    + by apply Hnew.
    + rewrite Hoth in Hr by done. specialize (Hn r room Hr). lia.
  - intros r1 r2 a b Hne Ha Hb.
    assert (Hside : forall r room room', r ≠ rid ->
              rooms st !! r = Some room -> rooms st' !! rid = Some room' ->
              history (stateManager room') ≠ history (stateManager room)).
    { intros r room room' Hrr Hr Hr'.
      specialize (Hn r room Hr).
      destruct (Hnew room' Hr') as (_ & [Hloc | Hge] & _); [|lia].
      rewrite Hloc. unfold room_loc.
      destruct (rooms st !! rid) as [room0|] eqn:H0; [|lia].
      apply (Hd rid r); congruence. }
    destruct (decide (r1 = rid)) as [->|H1]; destruct (decide (r2 = rid)) as [->|H2].
    + contradiction.
    + rewrite Hoth in Hb by done. by apply (Hside r2).
    + rewrite Hoth in Ha by done. intros Heq. symmetry in Heq. revert Heq.
      by apply (Hside r1).
    + rewrite Hoth in Ha, Hb by done. by apply (Hd r1 r2).
  - intros r room Hr. destruct (decide (r = rid)) as [->|Hne].
    + by apply Hnew.
    + rewrite Hoth in Hr by done. by apply (Hu r).
Qed.

Lemma reachable_wf (st : Server) : reachable st -> server_wf st.
Proof.
  induction 1 as [|sid ev st _ IH].
  - split; [|split]; intros *; simpl; rewrite ?lookup_empty; discriminate.
  - destruct (event_room sid ev st) as [rid|] eqn:Hev.
    + apply (step_ok_wf rid st); [done|]. by apply handle_step_ok.
    + by rewrite handle_unaddressed.
Qed.

Lemma handle_keeps_room (sid : string) (ev : Event) (st : Server) (r : string) :
  ev ≠ ev_disconnect -> is_Some (rooms st !! r) ->
  is_Some (rooms (fst (handle sid ev st)) !! r).
Proof.
  intros Hne Hs.
  destruct ev as [rid uid col | rid s | rid x y | rid | rid | rid | ]; [..| by destruct Hne].
  all: unfold handle, on_join_room, on_drawing_step, on_cursor_move, on_undo, on_redo,
         on_clear_canvas, getRoom, createRoom, newRoom, newStateManager.
  1: destruct (rooms st !! rid) as [r0|] eqn:Hr; [|unfold alloc at 1]; cbn beta iota zeta;
      match goal with |- context [getHistory ?a ?b] => destruct (getHistory a b) end;
      cbn [fst rooms]; rewrite !lookup_insert_is_Some'; auto.
  all: repeat case_match; simpl; rewrite ?lookup_insert_is_Some'; auto.
Qed.

Lemma reachable_run_events (evs : list (string * Event)) (st : Server) :
  reachable st -> reachable (run_events evs st).
Proof.
  revert st. induction evs as [|[sid e] evs IH]; intros st Hst; simpl; [done|].
  apply IH. by apply reach_step.
Qed.

(** C6: session isolation.  In a reachable server state, an event
    addressed to session [r1] (join, drawing step, cursor move, undo,
    redo, clear, or the disconnect of a connection whose [socket.userData]
    names [r1]) leaves every other existing session [r2] as it was: the
    registry entry of [r2] (its roster, its undo, redo and per-user
    stroke maps, and the location of its history array) is the same, and
    so are the contents of its history array.  A connection that joins a
    second session without leaving the first is outside the spec's model
    (one session per connection) and is not treated here. *)
Theorem session_isolation (st : Server) (sid : string) (ev : Event)
    (r1 r2 : string) (room2 : Room) :
  reachable st -> r1 ≠ r2 -> event_room sid ev st = Some r1 ->
  rooms st !! r2 = Some room2 ->
  rooms (fst (handle sid ev st)) !! r2 = Some room2 /\
  deref (heap (fst (handle sid ev st))) (history (stateManager room2)) =
    deref (heap st) (history (stateManager room2)).
Proof.
  intros Hreach Hne Hev Hr2.
  pose proof (reachable_wf st Hreach) as Hwf. pose proof Hwf as (Hn & Hd & _).
  destruct (handle_step_ok sid ev st r1 Hwf Hev) as (Hoth & [_ Hf] & _).
  split; [rewrite Hoth by congruence; exact Hr2|].
  unfold deref. rewrite Hf; [done| |by apply (Hn r2)].
  unfold room_loc. destruct (rooms st !! r1) as [room1|] eqn:Hr1.
  - intros Heq. apply (Hd r1 r2 room1 room2 Hne Hr1 Hr2). by symmetry.
  - pose proof (Hn r2 room2 Hr2). lia.
Qed.

(** C7: roster teardown.  Let [rid] be a session of a reachable server
    state and consider any event.  (1) Afterwards [rid] is gone from the
    registry exactly when the event is the disconnect of a connection
    whose [socket.userData] names [rid] and the roster of [rid] without
    that connection is empty; (2) every session left in the registry has
    a non-empty roster, so no session lingers with an empty roster; and
    (3) when [rid] is gone, [createRoom rid] (the get-or-create) stores
    and returns a fresh session with id [rid], an empty roster, an empty
    history array and empty undo, redo and per-user maps. *)
Theorem roster_teardown (st : Server) (sid : string) (ev : Event)
    (rid : string) (room : Room) :
  reachable st -> rooms st !! rid = Some room ->
  (rooms (fst (handle sid ev st)) !! rid = None <->
     ev = ev_disconnect /\ option_map fst (userData st !! sid) = Some rid /\
     users (removeUser sid room) = []) /\
  (forall r room', rooms (fst (handle sid ev st)) !! r = Some room' -> users room' ≠ []) /\
  (rooms (fst (handle sid ev st)) !! rid = None ->
     match createRoom rid (rooms (fst (handle sid ev st))) (heap (fst (handle sid ev st))) with
     | (fresh, rms, h) =>
         rms !! rid = Some fresh /\ roomId fresh = rid /\ users fresh = [] /\
         deref h (history (stateManager fresh)) = [] /\
         undoStack (stateManager fresh) = ∅ /\ redoStack (stateManager fresh) = ∅ /\
         userStrokes (stateManager fresh) = ∅
     end).
Proof.
  intros Hreach Hr.
  assert (Hwf' : server_wf (fst (handle sid ev st))) by (apply reachable_wf, reach_step, Hreach).
  split; [|split].
  - assert (Hdis : ev = ev_disconnect \/ ev ≠ ev_disconnect)
      by (destruct ev; [right; discriminate ..| left; done]).
    destruct Hdis as [->|Hne].
    + unfold handle, on_disconnect, getRoom.
      destruct (userData st !! sid) as [[rid' uid]|] eqn:Hud; cbn [option_map fst].
      * destruct (rooms st !! rid') as [room0|] eqn:Hr0.
        -- destruct (Nat.eqb_spec (length (users (removeUser sid room0))) 0) as [H0|H0];
             cbn [fst rooms].
           ++ unfold deleteRoom. rewrite lookup_insert_eq.
              destruct (decide (rid' = rid)) as [->|Hne'].
              ** rewrite lookup_delete_eq. rewrite Hr in Hr0. injection Hr0 as ->.
                 split; [|done]. intros _. split; [done|]. split; [done|].
                 by apply nil_length_inv.
              ** rewrite lookup_delete_ne, lookup_insert_ne by done. rewrite Hr.
                 split; [discriminate|]. intros (_ & Heq & _). injection Heq. congruence.
           ++ destruct (decide (rid' = rid)) as [->|Hne'].
              ** rewrite lookup_insert_eq. split; [discriminate|].
                 intros (_ & _ & Hnil). rewrite Hr in Hr0. injection Hr0 as ->.
                 exfalso. apply H0. by rewrite Hnil.
              ** rewrite lookup_insert_ne by done. rewrite Hr.
                 split; [discriminate|]. intros (_ & Heq & _). injection Heq. congruence.
        -- cbn [fst]. rewrite Hr. split; [discriminate|].
           intros (_ & Heq & _). injection Heq as ->. congruence.
      * cbn [fst]. rewrite Hr. split; [discriminate|]. intros (_ & Heq & _). discriminate.
    + destruct (handle_keeps_room sid ev st rid Hne) as [x Hx]; [by eexists|].
      rewrite Hx. split; [discriminate|]. intros (? & _). contradiction.
  - destruct Hwf' as (_ & _ & Hu). exact Hu.
  - intros Hnone. unfold createRoom. rewrite Hnone.
    unfold newRoom, newStateManager, alloc. cbn beta iota zeta.
    split; [apply lookup_insert_eq|]. split; [done|]. split; [done|].
    split; [|done]. unfold deref. cbn [arrays history stateManager].
    by rewrite lookup_insert_eq.
Qed.

Lemma sm_reachable_run (ops : list EngineOp) (sm : StateManager) (h : Heap) :
  sm_reachable sm h -> sm_reachable (fst (run ops sm h)) (snd (run ops sm h)).
Proof.
  revert sm h. induction ops as [|o ops IH]; intros sm h Hr; simpl; [done|].
  pose proof (smr_step o sm h Hr) as Hs.
  destruct (engine_step o sm h) as [sm' h'] eqn:E. by apply IH.
Qed.

Lemma w_reachable : sm_reachable w_sm w_h.
Proof. apply sm_reachable_run, smr_new. Qed.

Lemma iso_reachable : reachable iso_state.
Proof. apply reachable_run_events, reach_init. Qed.

Lemma getHistory_snapshot_witness :
  sm_reachable w_sm w_h /\
  deref (snd (getHistory w_sm w_h)) (fst (getHistory w_sm w_h)) = deref w_h (history w_sm) /\
  deref (snd (run [OpUndo "A"; OpAddStroke (set_userId "B" strokeA); OpClear]
                  w_sm (snd (getHistory w_sm w_h))))
        (fst (getHistory w_sm w_h)) =
    [set_userId "A" strokeA; set_userId "B" strokeB].
Proof.
  destruct (getHistory_snapshot w_sm w_h w_reachable) as [H1 H2].
  split; [exact w_reachable|]. split; [exact H1|].
  rewrite H2. vm_compute. reflexivity.
Defined.

Lemma undo_redo_roundtrip_witness :
  undoLastStrokeByUser "A" w_sm w_h = (Some (set_userId "A" strokeA), w_sm1, w_h1) /\
  exists pre post sm2 h2,
    deref w_h (history w_sm) = pre ++ set_userId "A" strokeA :: post /\
    Forall (fun t => userId t ≠ "A") post /\
    redoStrokeByUser "A" w_sm1 w_h1 = (Some (set_userId "A" strokeA), sm2, h2) /\
    deref h2 (history sm2) = pre ++ post ++ [set_userId "A" strokeA] /\
    (forall l, deref w_h (history w_sm) = l ++ [set_userId "A" strokeA] ->
       deref h2 (history sm2) = deref w_h (history w_sm)).
Proof.
  assert (Hu : undoLastStrokeByUser "A" w_sm w_h = (Some (set_userId "A" strokeA), w_sm1, w_h1))
    by (vm_compute; reflexivity).
  split; [exact Hu|].
  exact (undo_redo_roundtrip "A" w_sm w_sm1 w_h w_h1 (set_userId "A" strokeA) Hu).
Defined.

Lemma userStrokes_tracks_history_witness :
  sm_reachable w_sm w_h /\
  getStrokesByUser w_sm "A" = strokes_of "A" (deref w_h (history w_sm)) /\
  getUserStrokeCount w_sm "A" = length (strokes_of "A" (deref w_h (history w_sm))) /\
  strokes_of "A" (deref w_h (history w_sm)) = [set_userId "A" strokeA].
Proof.
  destruct (userStrokes_tracks_history w_sm w_h w_reachable "A") as [H1 H2].
  split; [exact w_reachable|]. split; [exact H1|]. split; [exact H2|].
  vm_compute. reflexivity.
Defined.

Lemma session_isolation_witness :
  exists room2,
    reachable iso_state /\ "r1" ≠ "r2" /\
    event_room "s1" ev_disconnect iso_state = Some "r1" /\
    rooms iso_state !! "r2" = Some room2 /\
    rooms (fst (handle "s1" ev_disconnect iso_state)) !! "r2" = Some room2 /\
    deref (heap (fst (handle "s1" ev_disconnect iso_state))) (history (stateManager room2)) =
      deref (heap iso_state) (history (stateManager room2)).
Proof.
  case_eq (rooms iso_state !! "r2").
  - intros room2 Hr2. exists room2.
    assert (Hne : "r1" ≠ "r2") by discriminate.
    assert (Hev : event_room "s1" ev_disconnect iso_state = Some "r1")
      by (vm_compute; reflexivity).
    split; [exact iso_reachable|]. split; [exact Hne|]. split; [exact Hev|].
    split; [reflexivity|].
    exact (session_isolation iso_state "s1" ev_disconnect "r1" "r2" room2
             iso_reachable Hne Hev Hr2).
  - intros Hr2. vm_compute in Hr2. discriminate.
Defined.

Lemma roster_teardown_witness :
  exists room,
    reachable iso_state /\ rooms iso_state !! "r1" = Some room /\
    (rooms (fst (handle "s1" ev_disconnect iso_state)) !! "r1" = None <->
       ev_disconnect = ev_disconnect /\
       option_map fst (userData iso_state !! "s1") = Some "r1" /\
       users (removeUser "s1" room) = []) /\
    (forall r room', rooms (fst (handle "s1" ev_disconnect iso_state)) !! r = Some room' ->
       users room' ≠ []) /\
    (rooms (fst (handle "s1" ev_disconnect iso_state)) !! "r1" = None ->
       match createRoom "r1" (rooms (fst (handle "s1" ev_disconnect iso_state)))
                        (heap (fst (handle "s1" ev_disconnect iso_state))) with
       | (fresh, rms, h) =>
           rms !! "r1" = Some fresh /\ roomId fresh = "r1" /\ users fresh = [] /\
           deref h (history (stateManager fresh)) = [] /\
           undoStack (stateManager fresh) = ∅ /\ redoStack (stateManager fresh) = ∅ /\
           userStrokes (stateManager fresh) = ∅
       end) /\
    rooms (fst (handle "s1" ev_disconnect iso_state)) !! "r1" = None.
Proof.
  case_eq (rooms iso_state !! "r1").
  - intros room Hr. exists room.
    split; [exact iso_reachable|]. split; [reflexivity|].
    destruct (roster_teardown iso_state "s1" ev_disconnect "r1" room iso_reachable Hr)
      as (H1 & H2 & H3).
    split; [exact H1|]. split; [exact H2|]. split; [exact H3|].
    vm_compute. reflexivity.
  - intros Hr. vm_compute in Hr. discriminate.
Defined.

(* ================================================================== *)
(** * Further properties of the code *)

(** ** The history engine: queries and counts *)

Lemma canUndo_scan_findLast (u : string) (hist : list Stroke) (n : nat) :
  canUndo_scan u hist n = negb (Z.eqb (findLast u hist n) (-1)).
Proof.
  induction n as [|j IH]; [done|]. simpl.
  destruct (hist !! j) as [s|]; [|done].
  destruct (String.eqb (userId s) u); [|done].
  destruct (Z.eqb_spec (Z.of_nat j) (-1)); [lia | done].
Qed.

Lemma canUndo_cases (u : string) (sm : StateManager) (h : Heap) :
  (canUndo sm h u = false /\ undoLastStrokeByUser u sm h = (None, sm, h)) \/
  (canUndo sm h u = true /\ exists s sm' h', undoLastStrokeByUser u sm h = (Some s, sm', h')).
Proof.
  unfold canUndo. rewrite canUndo_scan_findLast.
  destruct (last_decomp u (deref h (history sm)))
    as [Hall | (pre & s & post & Hh & Hs & Hpost)].
  - left. rewrite findLast_absent by done. split; [done|]. by apply undo_absent.
  - right. rewrite Hh, findLast_last by done. split.
    + destruct (Z.eqb_spec (Z.of_nat (length pre)) (-1)); [lia | done].
    + rewrite (undo_found u sm h pre post s) by done. by eexists _, _, _.
Qed.

Lemma redo_some_owner (u : string) (sm : StateManager) (h : Heap) (s : Stroke) :
  sm_reachable sm h -> fst (fst (redoStrokeByUser u sm h)) = Some s -> userId s = u.
Proof.
  intros Hr Hs. destruct (engine_inv_reachable sm h Hr) as (_ & _ & Hown).
  destruct (redo_cases u sm h) as [E | (st & s' & Hst & E)]; rewrite E in Hs; [discriminate|].
  injection Hs as <-. specialize (Hown u _ Hst). rewrite Forall_app in Hown.
  destruct Hown as [_ Hown]. by inversion Hown.
Qed.

Lemma canRedo_cases (u : string) (sm : StateManager) (h : Heap) :
  (canRedo sm u = false /\ redoStrokeByUser u sm h = (None, sm, h)) \/
  (canRedo sm u = true /\ exists s sm' h', redoStrokeByUser u sm h = (Some s, sm', h')).
Proof.
  unfold canRedo.
  destruct (redo_cases u sm h) as [E | (st & s & Hst & E)].
  - left. split; [|exact E].
    destruct (redo_none_empty u sm sm h h E) as [Hn | Hn]; by rewrite Hn.
  - right. rewrite Hst, length_app. simpl. rewrite Nat.add_1_r. split; [done|].
    rewrite E. by eexists _, _, _.
Qed.

(** [canUndo(u)] answers whether [undoLastStrokeByUser(u)] would undo a
    stroke: it is [true] exactly when the undo returns a stroke, and when
    it is [false] the undo returns none and changes nothing. *)
Theorem canUndo_iff_undo (u : string) (sm : StateManager) (h : Heap) :
  (canUndo sm h u = true <->
   exists s sm' h', undoLastStrokeByUser u sm h = (Some s, sm', h')) /\
  (canUndo sm h u = false -> undoLastStrokeByUser u sm h = (None, sm, h)).
Proof.
  destruct (canUndo_cases u sm h) as [[Hc E] | [Hc E]]; rewrite Hc.
  - split; [|done]. split; [discriminate|]. intros (s & sm' & h' & E'). congruence.
  - split; [done | discriminate].
Qed.

(** [canRedo(u)] answers whether [redoStrokeByUser(u)] would redo a
    stroke: it is truthy exactly when the redo returns a stroke, and when
    it is falsy the redo returns none and changes nothing. *)
Theorem canRedo_iff_redo (u : string) (sm : StateManager) (h : Heap) :
  (canRedo sm u = true <->
   exists s sm' h', redoStrokeByUser u sm h = (Some s, sm', h')) /\
  (canRedo sm u = false -> redoStrokeByUser u sm h = (None, sm, h)).
Proof.
  destruct (canRedo_cases u sm h) as [[Hc E] | [Hc E]]; rewrite Hc.
  - split; [|done]. split; [discriminate|]. intros (s & sm' & h' & E'). congruence.
  - split; [done | discriminate].
Qed.

(** How the operations move [getStrokeCount()]: [addStroke] adds one
    stroke, an undo that returns a stroke removes one, a redo that returns
    a stroke adds one, an undo or redo that returns none leaves the count,
    and [clearHistory] brings it to zero. *)
Theorem getStrokeCount_ops (s : Stroke) (u : string) (sm : StateManager) (h : Heap) :
  getStrokeCount (fst (addStroke s sm h)) (snd (addStroke s sm h)) = S (getStrokeCount sm h) /\
  match undoLastStrokeByUser u sm h with
  | (Some _, sm', h') => S (getStrokeCount sm' h') = getStrokeCount sm h
  | (None, sm', h') => getStrokeCount sm' h' = getStrokeCount sm h
  end /\
  match redoStrokeByUser u sm h with
  | (Some _, sm', h') => getStrokeCount sm' h' = S (getStrokeCount sm h)
  | (None, sm', h') => getStrokeCount sm' h' = getStrokeCount sm h
  end /\
  getStrokeCount (fst (clearHistory sm h)) (snd (clearHistory sm h)) = 0%nat.
Proof.
  unfold getStrokeCount. split; [|split; [|split]].
  - simpl. rewrite deref_write_eq, length_app. simpl. lia.
  - destruct (undo_cases u sm h) as [E | (pre & s' & post & Hh & _ & _ & E)]; rewrite E;
      [done|]. simpl. rewrite deref_write_eq, Hh, !length_app. simpl. lia.
  - destruct (redo_cases u sm h) as [E | (st & s' & _ & E)]; rewrite E; [done|].
    simpl. rewrite deref_write_eq, length_app. simpl. lia.
  - unfold clearHistory, alloc, deref. simpl. by rewrite lookup_insert_eq.
Qed.

(** In every state the engine reaches, [redoStrokeByUser(u)] only ever
    brings back a stroke of [u]. *)
Theorem redo_returns_own_stroke (u : string) (sm : StateManager) (h : Heap) (s : Stroke) :
  sm_reachable sm h -> fst (fst (redoStrokeByUser u sm h)) = Some s -> userId s = u.
Proof. apply redo_some_owner. Qed.

(** In every state the engine reaches, an undo or a redo by [u] leaves
    the strokes of every other user [v] in the history as they were, in
    the same order. *)
Theorem undo_redo_keep_other_users (u v : string) (sm : StateManager) (h : Heap) :
  sm_reachable sm h -> v ≠ u ->
  strokes_of v (deref (snd (undoLastStrokeByUser u sm h))
                      (history (snd (fst (undoLastStrokeByUser u sm h))))) =
    strokes_of v (deref h (history sm)) /\
  strokes_of v (deref (snd (redoStrokeByUser u sm h))
                      (history (snd (fst (redoStrokeByUser u sm h))))) =
    strokes_of v (deref h (history sm)).
Proof.
  intros Hr Hne. split.
  - destruct (undo_cases u sm h) as [E | (pre & s & post & Hh & Hs & _ & E)]; rewrite E;
      [done|]. simpl. rewrite deref_write_eq, Hh, !strokes_of_app.
    change (s :: post) with ([s] ++ post). rewrite strokes_of_app, strokes_of_one.
    destruct (String.eqb_spec (userId s) v); [congruence | done].
  - pose proof (redo_some_owner u sm h) as Hown.
    destruct (redo_cases u sm h) as [E | (st & s & _ & E)]; rewrite E in Hown |- *; [done|].
    specialize (Hown s Hr eq_refl). simpl.
    rewrite deref_write_eq, strokes_of_app, strokes_of_one.
    destruct (String.eqb_spec (userId s) v); [congruence|]. by rewrite app_nil_r.
Qed.

(** ** Rooms and the registry *)

Lemma find_filter_neq (i j : string) (l : list User) :
  j ≠ i ->
  List.find (fun u => String.eqb (u_id u) j)
            (List.filter (fun u => negb (String.eqb (u_id u) i)) l) =
  List.find (fun u => String.eqb (u_id u) j) l.
Proof.
  intros Hne. induction l as [|x l IH]; [done|]. simpl.
  destruct (String.eqb_spec (u_id x) i) as [Hi|Hi]; simpl.
  - destruct (String.eqb_spec (u_id x) j); [congruence | exact IH].
  - destruct (String.eqb (u_id x) j); [done | exact IH].
Qed.

Lemma find_filter_eq (i : string) (l : list User) :
  List.find (fun u => String.eqb (u_id u) i)
            (List.filter (fun u => negb (String.eqb (u_id u) i)) l) = None.
Proof.
  induction l as [|x l IH]; [done|]. simpl.
  destruct (String.eqb (u_id x) i) eqn:E; simpl; [exact IH|]. by rewrite E.
Qed.

Lemma length_filter_users (i : string) (l : list User) :
  (length (List.filter (fun u => negb (String.eqb (u_id u) i)) l) <= length l)%nat /\
  (length (List.filter (fun u => negb (String.eqb (u_id u) i)) l) = length l <->
   List.find (fun u => String.eqb (u_id u) i) l = None).
Proof.
  induction l as [|x l [IH1 IH2]]; [done|]. simpl.
  destruct (String.eqb (u_id x) i); simpl.
  - split; [lia|]. split; [lia | discriminate].
  - split; [lia|]. rewrite <- IH2. lia.
Qed.

(** [removeUser(id)] removes every roster entry with that id: afterwards
    [getUserById(id)] finds nothing, and the lookup of any other id is
    the same as before. *)
Theorem getUserById_removeUser (i j : string) (r : Room) :
  getUserById i (removeUser i r) = None /\
  (j ≠ i -> getUserById j (removeUser i r) = getUserById j r).
Proof.
  unfold getUserById, removeUser. simpl. split.
  - apply find_filter_eq.
  - apply find_filter_neq.
Qed.

(** [removeUser(id)] never grows the roster, and it leaves
    [getUserCount()] unchanged exactly when no entry has that id. *)
Theorem getUserCount_removeUser (i : string) (r : Room) :
  (getUserCount (removeUser i r) <= getUserCount r)%nat /\
  (getUserCount (removeUser i r) = getUserCount r <-> getUserById i r = None).
Proof. unfold getUserCount, getUserById, removeUser. simpl. apply length_filter_users. Qed.

(** [getUserById(id)] after [addUser(user)]: an entry already in the
    roster with that id is still the one found ([find] returns the first
    match); otherwise the new entry is found when it has that id. *)
Theorem getUserById_addUser (u : User) (j : string) (r : Room) :
  getUserById j (addUser u r) =
    match getUserById j r with
    | Some x => Some x
    | None => if String.eqb (u_id u) j then Some u else None
    end.
Proof.
  unfold getUserById, addUser. simpl. induction (users r) as [|x l IH]; simpl.
  - by destruct (String.eqb (u_id u) j).
  - by destruct (String.eqb (u_id x) j).
Qed.

(** [createRoom(roomId)] is a get-or-create: on a registered id it
    returns the stored room and changes nothing; in every case the
    returned room is the one stored under the id afterwards, the other
    ids are untouched, and a second call returns the same room and
    changes nothing. *)
Theorem createRoom_get_or_create (rid : string) (rms : gmap string Room) (h : Heap) :
  (forall r, rms !! rid = Some r -> createRoom rid rms h = (r, rms, h)) /\
  match createRoom rid rms h with
  | (r, rms', h') =>
      rms' !! rid = Some r /\
      (forall k, k ≠ rid -> rms' !! k = rms !! k) /\
      createRoom rid rms' h' = (r, rms', h')
  end.
Proof.
  split.
  - intros r Hr. unfold createRoom. by rewrite Hr.
  - unfold createRoom. destruct (rms !! rid) as [r|] eqn:Hr.
    + split; [done|]. split; [done|]. by rewrite Hr.
    + unfold newRoom, newStateManager, alloc. cbn beta iota zeta.
      rewrite lookup_insert_eq. split; [done|]. split; [|done].
      intros k Hk. by rewrite lookup_insert_ne.
Qed.

(** [deleteRoom(roomId)] leaves nothing under the id, keeps every other
    id, and on an id that is not registered changes nothing. *)
Theorem deleteRoom_spec (rid k : string) (rms : gmap string Room) :
  getRoom rid (deleteRoom rid rms) = None /\
  (k ≠ rid -> getRoom k (deleteRoom rid rms) = getRoom k rms) /\
  (rms !! rid = None -> deleteRoom rid rms = rms).
Proof.
  unfold getRoom, deleteRoom. destruct (rms !! rid) as [r|] eqn:Hr.
  - split; [apply lookup_delete_eq|]. split; [|discriminate].
    intros Hk. by rewrite lookup_delete_ne.
  - split; [done|]. by split.
Qed.

(** ** The colour of a new participant *)


(** ** The registry of a running server *)

Lemma keys_ok_insert (rms : gmap string Room) (k : string) (r : Room) :
  keys_ok rms -> roomId r = k -> keys_ok (<[k := r]> rms).
Proof.
  intros Hk Hr k' r'. destruct (decide (k = k')) as [<-|Hne].
  - rewrite lookup_insert_eq. congruence.
  - rewrite lookup_insert_ne by done. apply Hk.
Qed.

Lemma keys_ok_deleteRoom (rms : gmap string Room) (k : string) :
  keys_ok rms -> keys_ok (deleteRoom k rms).
Proof.
  intros Hk. unfold deleteRoom. destruct (rms !! k); [|done].
  intros k' r'. destruct (decide (k = k')) as [<-|Hne].
  - by rewrite lookup_delete_eq.
  - rewrite lookup_delete_ne by done. apply Hk.
Qed.

Lemma handle_keys_ok (sid : string) (ev : Event) (st : Server) :
  keys_ok (rooms st) -> keys_ok (rooms (fst (handle sid ev st))).
Proof.
  intros Hk.
  destruct ev as [rid uid col | rid s | rid x y | rid | rid | rid | ];
    unfold handle, on_join_room, on_drawing_step, on_cursor_move, on_undo, on_redo,
      on_clear_canvas, on_disconnect, getRoom, createRoom, newRoom, newStateManager.
  1: destruct (rooms st !! rid) as [r0|] eqn:Hr; [|unfold alloc at 1]; cbn beta iota zeta;
     match goal with |- context [getHistory ?a ?b] => destruct (getHistory a b) end;
     cbn [fst rooms]; repeat apply keys_ok_insert; simpl; eauto.
  all: repeat case_match; simplify_eq; cbn [fst rooms];
       repeat first [apply keys_ok_deleteRoom | apply keys_ok_insert]; simpl; eauto.
Qed.

Lemma reachable_keys_ok (st : Server) : reachable st -> keys_ok (rooms st).
Proof.
  induction 1 as [|sid ev st _ IH]; [intros k r; simpl; by rewrite lookup_empty|].
  by apply handle_keys_ok.
Qed.

(** In every reachable server state each session of the registry is
    stored under its own [roomId]. *)
Theorem roomId_matches_key (st : Server) (rid : string) (room : Room) :
  reachable st -> rooms st !! rid = Some room -> roomId room = rid.
Proof. intros Hr. by apply reachable_keys_ok. Qed.

(** [getRoomStats(roomId)] on a reachable server: [null] for an id that
    is not registered; for a registered one, the stats name that id,
    [userCount] is the roster size (at least one, since a session with an
    empty roster is removed), [strokeCount] is [getStrokeCount()], and
    the call leaves the history of every session as it was. *)
Theorem getRoomStats_spec (st : Server) (rid : string) :
  reachable st ->
  match rooms st !! rid with
  | None => getRoomStats rid (rooms st) (heap st) = (None, heap st)
  | Some room =>
      fst (getRoomStats rid (rooms st) (heap st)) =
        Some (mkRoomStats rid (getUserCount room) (getStrokeCount (stateManager room) (heap st))) /\
      (1 <= getUserCount room)%nat /\
      (forall r room', rooms st !! r = Some room' ->
         deref (snd (getRoomStats rid (rooms st) (heap st))) (history (stateManager room')) =
         deref (heap st) (history (stateManager room')))
  end.
Proof.
  intros Hreach. pose proof (reachable_wf st Hreach) as (Hn & _ & Hu).
  unfold getRoomStats, getRoom. destruct (rooms st !! rid) as [room|] eqn:Hr; [|done].
  unfold getHistory. rewrite (surjective_pairing (alloc _ _)). cbn [fst snd].
  split; [|split].
  - rewrite deref_alloc_new, (reachable_keys_ok st Hreach rid room Hr). done.
  - unfold getUserCount. specialize (Hu rid room Hr). destruct (users room); [done|]. simpl. lia.
  - intros r room' Hr'. specialize (Hn r room' Hr'). apply deref_alloc_old. lia.
Qed.

(** ** The socket handlers *)

Lemma canUndo_deref (sm : StateManager) (h h' : Heap) (u : string) :
  deref h' (history sm) = deref h (history sm) -> canUndo sm h' u = canUndo sm h u.
Proof. unfold canUndo. by intros ->. Qed.

Lemma getHistory_parts (sm : StateManager) (h : Heap) (snap : loc) (h' : Heap) :
  getHistory sm h = (snap, h') ->
  deref h' snap = deref h (history sm) /\ deref h' (history sm) = deref h (history sm).
Proof.
  intros E. split.
  - replace h' with (snd (getHistory sm h)) by (by rewrite E).
    replace snap with (fst (getHistory sm h)) by (by rewrite E).
    apply deref_alloc_new.
  - replace h' with (snd (getHistory sm h)) by (by rewrite E).
    apply deref_getHistory_self.
Qed.



(** [join_room]: the session is looked up or created, the joining
    connection is appended to its roster, its history is left as it was,
    [socket.userData] records the session and the user id, and the
    joiner receives that history with the new roster ([load_history]),
    the session the new roster ([users_updated]) and the others the
    roster entry [find] returns for the joiner ([user_joined]). *)
Theorem join_room_spec (sid rid uid col : string) (st : Server) :
  reachable st ->
  let hist0 := match rooms st !! rid with
               | Some r => deref (heap st) (history (stateManager r))
               | None => []
               end in
  let users0 := match rooms st !! rid with Some r => users r | None => [] end in
  let st' := fst (on_join_room sid rid uid col st) in
  exists room',
    rooms st' !! rid = Some room' /\
    users room' = users0 ++ [mkUser sid uid col None] /\
    deref (heap st') (history (stateManager room')) = hist0 /\
    userData st' !! sid = Some (rid, uid) /\
    snd (on_join_room sid rid uid col st) =
      [(ToSocket sid, msg_load_history hist0 (users room'));
       (ToRoom rid, msg_users_updated (users room'));
       (ToRoomExceptSender rid sid,
        msg_user_joined (getUserById sid room') (length (users room')))].
Proof.
  intros Hreach. cbv zeta. pose proof (reachable_wf st Hreach) as (Hn & _ & _).
  unfold on_join_room, getRoom. destruct (rooms st !! rid) as [room|] eqn:Hr.
  - cbn beta iota zeta.
    destruct (getHistory (stateManager (addUser (mkUser sid uid col None) room)) (heap st))
      as [snap h2] eqn:E.
    destruct (getHistory_parts _ _ _ _ E) as [E1 E2].
    exists (addUser (mkUser sid uid col None) room). cbn [fst snd rooms heap userData].
    rewrite lookup_insert_eq, E1, E2. simpl. by rewrite lookup_insert_eq.
  - unfold createRoom. rewrite Hr. unfold newRoom, newStateManager, alloc.
    cbn beta iota zeta.
    match goal with |- context [getHistory ?a ?b] => destruct (getHistory a b) as [snap h2] eqn:E end.
    destruct (getHistory_parts _ _ _ _ E) as [E1 E2].
    eexists. cbn [fst snd rooms heap userData].
    rewrite lookup_insert_eq, E1, E2.
    assert (D : deref (mkHeap (<[next (heap st) := []]> (arrays (heap st))) (S (next (heap st))))
                      (next (heap st)) = []) by (unfold deref; simpl; by rewrite lookup_insert_eq).
    cbn [history stateManager addUser users]. rewrite D.
    split; [done|]. split; [done|]. split; [done|]. split; [|done].
    apply lookup_insert_eq.
Qed.

(** [drawing_step] on a registered session: the stroke is appended to
    its history with [userId] set to the sender's socket id, whatever the
    client sent, the roster is kept, and the same stroke is broadcast to
    the whole session ([draw_event]). *)
Theorem drawing_step_spec (sid rid : string) (s : Stroke) (st : Server) (room : Room) :
  rooms st !! rid = Some room ->
  exists room',
    rooms (fst (on_drawing_step sid rid s st)) !! rid = Some room' /\
    users room' = users room /\
    deref (heap (fst (on_drawing_step sid rid s st))) (history (stateManager room')) =
      deref (heap st) (history (stateManager room)) ++ [set_userId sid s] /\
    userId (set_userId sid s) = sid /\
    snd (on_drawing_step sid rid s st) = [(ToRoom rid, msg_draw_event sid (set_userId sid s))].
Proof.
  intros Hr. unfold on_drawing_step, getRoom, addStroke. rewrite Hr. cbn beta iota zeta.
  eexists. cbn [fst snd rooms heap]. rewrite lookup_insert_eq.
  split; [done|]. split; [done|]. split; [|done].
  simpl. apply deref_write_eq.
Qed.

(** [undo] on a registered session: the roster is kept, and a
    [history_updated] message goes to the whole session exactly when
    [canUndo] held for the sender before the event; its payload is the
    session's history as stored afterwards. *)
Theorem undo_event_spec (sid rid : string) (st : Server) (room : Room) :
  rooms st !! rid = Some room ->
  exists room',
    rooms (fst (on_undo sid rid st)) !! rid = Some room' /\
    users room' = users room /\
    snd (on_undo sid rid st) =
      if canUndo (stateManager room) (heap st) sid
      then [(ToRoom rid, msg_history_updated sid
               (deref (heap (fst (on_undo sid rid st))) (history (stateManager room'))) "undo")]
      else [].
Proof.
  intros Hr. unfold on_undo, getRoom. rewrite Hr. cbn beta iota zeta.
  destruct (getHistory (stateManager room) (heap st)) as [p1 h1] eqn:E1.
  destruct (getHistory_parts _ _ _ _ E1) as [_ D1].
  rewrite <- (canUndo_deref (stateManager room) (heap st) h1 sid D1).
  destruct (canUndo_cases sid (stateManager room) h1) as [[Hc E] | [Hc (s & sm' & h' & E)]];
    rewrite Hc, E.
  - eexists. cbn [fst snd rooms]. rewrite lookup_insert_eq. by split.
  - destruct (getHistory sm' h') as [snap h3] eqn:E3.
    destruct (getHistory_parts _ _ _ _ E3) as [F1 F2].
    eexists. cbn [fst snd rooms heap]. rewrite lookup_insert_eq.
    split; [done|]. split; [done|]. simpl. by rewrite F1, F2.
Qed.

(** [redo] on a registered session: the roster is kept, and a
    [history_updated] message goes to the whole session exactly when
    [canRedo] held for the sender before the event; its payload is the
    session's history as stored afterwards. *)
Theorem redo_event_spec (sid rid : string) (st : Server) (room : Room) :
  rooms st !! rid = Some room ->
  exists room',
    rooms (fst (on_redo sid rid st)) !! rid = Some room' /\
    users room' = users room /\
    snd (on_redo sid rid st) =
      if canRedo (stateManager room) sid
      then [(ToRoom rid, msg_history_updated sid
               (deref (heap (fst (on_redo sid rid st))) (history (stateManager room'))) "redo")]
      else [].
Proof.
  intros Hr. unfold on_redo, getRoom. rewrite Hr. cbn beta iota zeta.
  destruct (getHistory (stateManager room) (heap st)) as [p1 h1] eqn:E1.
  destruct (canRedo_cases sid (stateManager room) h1) as [[Hc E] | [Hc (s & sm' & h' & E)]];
    rewrite Hc, E.
  - eexists. cbn [fst snd rooms]. rewrite lookup_insert_eq. by split.
  - destruct (getHistory sm' h') as [snap h3] eqn:E3.
    destruct (getHistory_parts _ _ _ _ E3) as [F1 F2].
    eexists. cbn [fst snd rooms heap]. rewrite lookup_insert_eq.
    split; [done|]. split; [done|]. simpl. by rewrite F1, F2.
Qed.

(** [clear_canvas] on a registered session: the roster is kept, the
    history becomes empty, no user can undo or redo afterwards, and
    [canvas_cleared] goes to the whole session. *)
Theorem clear_event_spec (sid rid : string) (st : Server) (room : Room) :
  rooms st !! rid = Some room ->
  exists room',
    rooms (fst (on_clear_canvas sid rid st)) !! rid = Some room' /\
    users room' = users room /\
    deref (heap (fst (on_clear_canvas sid rid st))) (history (stateManager room')) = [] /\
    (forall u, canUndo (stateManager room') (heap (fst (on_clear_canvas sid rid st))) u = false /\
               canRedo (stateManager room') u = false) /\
    snd (on_clear_canvas sid rid st) = [(ToRoom rid, msg_canvas_cleared sid)].
Proof.
  intros Hr. unfold on_clear_canvas, getRoom. rewrite Hr. cbn beta iota zeta.
  unfold clearHistory, alloc. cbn beta iota zeta.
  eexists. cbn [fst snd rooms heap]. rewrite lookup_insert_eq.
  assert (D : deref (mkHeap (<[next (heap st) := []]> (arrays (heap st))) (S (next (heap st))))
                    (next (heap st)) = []) by (unfold deref; simpl; by rewrite lookup_insert_eq).
  split; [done|]. split; [done|]. split; [exact D|]. split; [|done].
  intros u. unfold canUndo, canRedo. simpl. rewrite D. split; [done|].
  by rewrite lookup_empty.
Qed.


(** [disconnect] of a connection whose [socket.userData] names a
    registered session, when others remain: the connection's entries are
    removed from the roster, the store is kept, and [users_updated] and
    [user_left] with the new roster size go to the session. *)
Theorem disconnect_event_spec (sid rid uid : string) (st : Server) (room : Room) :
  userData st !! sid = Some (rid, uid) -> rooms st !! rid = Some room ->
  users (removeUser sid room) ≠ [] ->
  rooms (fst (on_disconnect sid st)) !! rid = Some (removeUser sid room) /\
  heap (fst (on_disconnect sid st)) = heap st /\
  snd (on_disconnect sid st) =
    [(ToRoom rid, msg_users_updated (users (removeUser sid room)));
     (ToRoom rid, msg_user_left sid (length (users (removeUser sid room))))].
Proof.
  intros Hud Hr Hne. unfold on_disconnect, getRoom. rewrite Hud, Hr.
  destruct (Nat.eqb_spec (length (users (removeUser sid room))) 0) as [H0|H0].
  - exfalso. apply Hne. by apply nil_length_inv.
  - cbn [fst snd rooms heap]. by rewrite lookup_insert_eq.
Qed.

(** ** Witnesses of the properties above *)

Lemma w2_reachable : sm_reachable w_sm2 w_h2.
Proof. apply sm_reachable_run, smr_new. Qed.

Lemma duo_reachable : reachable duo_state.
Proof. apply reach_step, iso_reachable. Qed.

Lemma redo_returns_own_stroke_witness :
  sm_reachable w_sm2 w_h2 /\
  fst (fst (redoStrokeByUser "A" w_sm2 w_h2)) = Some (set_userId "A" strokeA) /\
  userId (set_userId "A" strokeA) = "A".
Proof.
  assert (E : fst (fst (redoStrokeByUser "A" w_sm2 w_h2)) = Some (set_userId "A" strokeA))
    by (vm_compute; reflexivity).
  split; [exact w2_reachable|]. split; [exact E|].
  exact (redo_returns_own_stroke "A" w_sm2 w_h2 (set_userId "A" strokeA) w2_reachable E).
Defined.

Lemma undo_redo_keep_other_users_witness :
  sm_reachable w_sm2 w_h2 /\ "B" ≠ "A" /\
  strokes_of "B" (deref (snd (undoLastStrokeByUser "A" w_sm2 w_h2))
                        (history (snd (fst (undoLastStrokeByUser "A" w_sm2 w_h2))))) =
    strokes_of "B" (deref w_h2 (history w_sm2)) /\
  strokes_of "B" (deref (snd (redoStrokeByUser "A" w_sm2 w_h2))
                        (history (snd (fst (redoStrokeByUser "A" w_sm2 w_h2))))) =
    strokes_of "B" (deref w_h2 (history w_sm2)).
Proof.
  assert (Hne : "B" ≠ "A") by discriminate.
  split; [exact w2_reachable|]. split; [exact Hne|].
  exact (undo_redo_keep_other_users "A" "B" w_sm2 w_h2 w2_reachable Hne).
Defined.

Lemma roomId_matches_key_witness :
  exists room, reachable iso_state /\ rooms iso_state !! "r1" = Some room /\ roomId room = "r1".
Proof.
  case_eq (rooms iso_state !! "r1").
  - intros room Hr. exists room. split; [exact iso_reachable|]. split; [reflexivity|].
    exact (roomId_matches_key iso_state "r1" room iso_reachable Hr).
  - intros Hr. vm_compute in Hr. discriminate.
Defined.

Lemma getRoomStats_spec_witness :
  reachable iso_state /\
  match rooms iso_state !! "r1" with
  | None => getRoomStats "r1" (rooms iso_state) (heap iso_state) = (None, heap iso_state)
  | Some room =>
      fst (getRoomStats "r1" (rooms iso_state) (heap iso_state)) =
        Some (mkRoomStats "r1" (getUserCount room)
                (getStrokeCount (stateManager room) (heap iso_state))) /\
      (1 <= getUserCount room)%nat /\
      (forall r room', rooms iso_state !! r = Some room' ->
         deref (snd (getRoomStats "r1" (rooms iso_state) (heap iso_state)))
               (history (stateManager room')) =
         deref (heap iso_state) (history (stateManager room')))
  end.
Proof. split; [exact iso_reachable | exact (getRoomStats_spec iso_state "r1" iso_reachable)]. Defined.

Lemma join_room_spec_witness :
  reachable iso_state /\
  let hist0 := match rooms iso_state !! "r1" with
               | Some r => deref (heap iso_state) (history (stateManager r))
               | None => []
               end in
  let users0 := match rooms iso_state !! "r1" with Some r => users r | None => [] end in
  let st' := fst (on_join_room "s3" "r1" "Carol" "#45B7D1" iso_state) in
  exists room',
    rooms st' !! "r1" = Some room' /\
    users room' = users0 ++ [mkUser "s3" "Carol" "#45B7D1" None] /\
    deref (heap st') (history (stateManager room')) = hist0 /\
    userData st' !! "s3" = Some ("r1", "Carol") /\
    snd (on_join_room "s3" "r1" "Carol" "#45B7D1" iso_state) =
      [(ToSocket "s3", msg_load_history hist0 (users room'));
       (ToRoom "r1", msg_users_updated (users room'));
       (ToRoomExceptSender "r1" "s3",
        msg_user_joined (getUserById "s3" room') (length (users room')))].
Proof.
  split; [exact iso_reachable|].
  exact (join_room_spec "s3" "r1" "Carol" "#45B7D1" iso_state iso_reachable).
Defined.

Lemma drawing_step_spec_witness :
  exists room,
    rooms iso_state !! "r1" = Some room /\
    exists room',
      rooms (fst (on_drawing_step "s1" "r1" strokeB iso_state)) !! "r1" = Some room' /\
      users room' = users room /\
      deref (heap (fst (on_drawing_step "s1" "r1" strokeB iso_state)))
            (history (stateManager room')) =
        deref (heap iso_state) (history (stateManager room)) ++ [set_userId "s1" strokeB] /\
      userId (set_userId "s1" strokeB) = "s1" /\
      snd (on_drawing_step "s1" "r1" strokeB iso_state) =
        [(ToRoom "r1", msg_draw_event "s1" (set_userId "s1" strokeB))].
Proof.
  case_eq (rooms iso_state !! "r1").
  - intros room Hr. exists room. split; [reflexivity|].
    exact (drawing_step_spec "s1" "r1" strokeB iso_state room Hr).
  - intros Hr. vm_compute in Hr. discriminate.
Defined.

Lemma undo_event_spec_witness :
  exists room,
    rooms iso_state !! "r1" = Some room /\
    exists room',
      rooms (fst (on_undo "s1" "r1" iso_state)) !! "r1" = Some room' /\
      users room' = users room /\
      snd (on_undo "s1" "r1" iso_state) =
        if canUndo (stateManager room) (heap iso_state) "s1"
        then [(ToRoom "r1", msg_history_updated "s1"
                 (deref (heap (fst (on_undo "s1" "r1" iso_state)))
                        (history (stateManager room'))) "undo")]
        else [].
Proof.
  case_eq (rooms iso_state !! "r1").
  - intros room Hr. exists room. split; [reflexivity|].
    exact (undo_event_spec "s1" "r1" iso_state room Hr).
  - intros Hr. vm_compute in Hr. discriminate.
Defined.

Lemma redo_event_spec_witness :
  exists room,
    rooms iso_state !! "r1" = Some room /\
    exists room',
      rooms (fst (on_redo "s1" "r1" iso_state)) !! "r1" = Some room' /\
      users room' = users room /\
      snd (on_redo "s1" "r1" iso_state) =
        if canRedo (stateManager room) "s1"
        then [(ToRoom "r1", msg_history_updated "s1"
                 (deref (heap (fst (on_redo "s1" "r1" iso_state)))
                        (history (stateManager room'))) "redo")]
        else [].
Proof.
  case_eq (rooms iso_state !! "r1").
  - intros room Hr. exists room. split; [reflexivity|].
    exact (redo_event_spec "s1" "r1" iso_state room Hr).
  - intros Hr. vm_compute in Hr. discriminate.
Defined.

Lemma clear_event_spec_witness :
  exists room,
    rooms iso_state !! "r1" = Some room /\
    exists room',
      rooms (fst (on_clear_canvas "s1" "r1" iso_state)) !! "r1" = Some room' /\
      users room' = users room /\
      deref (heap (fst (on_clear_canvas "s1" "r1" iso_state))) (history (stateManager room')) = [] /\
      (forall u, canUndo (stateManager room') (heap (fst (on_clear_canvas "s1" "r1" iso_state))) u = false /\
                 canRedo (stateManager room') u = false) /\
      snd (on_clear_canvas "s1" "r1" iso_state) = [(ToRoom "r1", msg_canvas_cleared "s1")].
Proof.
  case_eq (rooms iso_state !! "r1").
  - intros room Hr. exists room. split; [reflexivity|].
    exact (clear_event_spec "s1" "r1" iso_state room Hr).
  - intros Hr. vm_compute in Hr. discriminate.
Defined.


Lemma disconnect_event_spec_witness :
  exists room,
    userData duo_state !! "s1" = Some ("r1", "Alice") /\
    rooms duo_state !! "r1" = Some room /\
    users (removeUser "s1" room) ≠ [] /\
    rooms (fst (on_disconnect "s1" duo_state)) !! "r1" = Some (removeUser "s1" room) /\
    heap (fst (on_disconnect "s1" duo_state)) = heap duo_state /\
    snd (on_disconnect "s1" duo_state) =
      [(ToRoom "r1", msg_users_updated (users (removeUser "s1" room)));
       (ToRoom "r1", msg_user_left "s1" (length (users (removeUser "s1" room))))].
Proof.
  case_eq (rooms duo_state !! "r1").
  - intros room Hr. exists room.
    assert (Hud : userData duo_state !! "s1" = Some ("r1", "Alice")) by (vm_compute; reflexivity).
    assert (Hne : users (removeUser "s1" room) ≠ []).
    { vm_compute in Hr. injection Hr as <-. vm_compute. discriminate. }
    split; [exact Hud|]. split; [reflexivity|]. split; [exact Hne|].
    exact (disconnect_event_spec "s1" "r1" "Alice" duo_state room Hud Hr Hne).
  - intros Hr. vm_compute in Hr. discriminate.
Defined.
